(** * Bluesky tutorial notebooks: the author-written plans

    A shallow embedding of the helper procedures defined in
    [Powder Diffraction/Exposures and Dark Frames.ipynb]
    ([dark_light_collection], [custom_plan]) and in
    [archive/talks/databroker_demo.ipynb] ([mega_plan], [errorbar],
    [gaussian]).

    A Bluesky plan is a Python generator: it hands requests to the run
    engine and is resumed either with the answer or with an exception
    thrown in at the point where it waits.  A plan is modelled as a tree of
    such requests ([plan]); [run] plays a plan against an arbitrary
    framework ([handler]) that owns the outside world, and records every
    request with its answer.  [gaussian] computes on binary64 numbers, with
    the operations as IEEE 754 specifies them. *)

From Stdlib Require Import ZArith Lia DecimalString Floats.
From stdpp Require Import base list list_numbers strings gmap.

Local Open Scope Z_scope.

(** ** Data *)

(** Run identifiers are the strings the run engine hands back. *)
Definition uid : Type := string.

(** The devices the notebooks name: [detector] of [simulated_hardware], and
    [det], [noisy_det], [motor] of the databroker demonstration. *)
Inductive device : Type := detector | det | noisy_det | motor.

(** Metadata dictionaries ([md=...]): string keys, string values. *)
Abbreviation metadata := (gmap string string).

(** What the embedding needs to know of Python's exceptions: which ones
    are a [StopIteration], and the [RuntimeError] ("generator raised
    StopIteration") that Python puts in the place of a [StopIteration]
    about to leave a generator; that [RuntimeError] is no
    [StopIteration]. *)
Class Exceptions (exn : Type) : Type := {
  is_StopIteration : exn -> bool;
  generator_raised_StopIteration : exn -> exn;
  generator_raised_is_not_StopIteration :
    forall e : exn, is_StopIteration (generator_raised_StopIteration e) = false
}.

Section Plans.

(** [exn]: the exceptions of the framework.  [intensity]: what the
    reduction helper [process_data] hands back (a numpy array). *)
Context {exn intensity : Type}.

(** ** Requests

    Everything a helper asks of code it does not define.  The index is the
    type of the answer.
    - [Light on]: [light(on)] of [simulated_hardware];
    - [LoadSample n]: [load_sample(n)];
    - [Count dets md]: [count(dets, md=md)] of [bluesky.plans], answered
      with the identifier of the run ([md] is empty where the call gives
      none);
    - [Scan dets m start stop num md]: [bp.scan(dets, m, start, stop, num,
      md=md)];
    - [ProcessData uids]: [process_data(uids)] of [utils.py];
    - [SimSleep t]: [sim_sleep(t)];
    - [Print s]: [print(s)]. *)
Inductive Msg : Type -> Type :=
| Light (on : bool) : Msg unit
| LoadSample (sample_num : Z) : Msg unit
| Count (dets : list device) (md : metadata) : Msg uid
| Scan (dets : list device) (mot : device) (start stop num : Z)
       (md : metadata) : Msg uid
| ProcessData (uids : list uid) : Msg intensity
| SimSleep (t : Z) : Msg unit
| Print (s : string) : Msg unit.

(** ** Plans

    [Vis m k] waits on request [m]; [k] is resumed with [inr x] when the
    framework answers [x] and with [inl e] when it throws [e] into the
    generator.  [Raise e] ends the generator with exception [e], [Ret r]
    with [return r].  [AppendNewIntList c k] is the statement
    [new_int_list.append(c)] on the notebook's module-level list. *)
Inductive plan (R : Type) : Type :=
| Ret (r : R)
| Raise (e : exn)
| Vis {X : Type} (m : Msg X) (k : exn + X -> plan R)
| AppendNewIntList (c : intensity) (k : plan R).

Arguments Ret {R} r.
Arguments Raise {R} e.
Arguments Vis {R X} m k.
Arguments AppendNewIntList {R} c k.

Fixpoint bind {A B : Type} (p : plan A) (f : A -> plan B) : plan B :=
  match p with
  | Ret a => f a
  | Raise e => Raise e
  | Vis m k => Vis m (fun r => bind (k r) f)
  | AppendNewIntList c k => AppendNewIntList c (bind k f)
  end.

(** A call (or a [yield from]) outside any [try]: an exception thrown in
    is raised at the call as it came.  What becomes of it when it leaves
    the enclosing generator is [generator]'s part. *)
Definition call {X : Type} (m : Msg X) : plan X :=
  Vis m (fun r => match r with inl e => Raise e | inr x => Ret x end).

(** [for x in xs: s = body x s], the loop carrying the variables [s] it
    assigns. *)
Fixpoint for_in {A S : Type} (xs : list A) (body : A -> S -> plan S) (s : S)
  : plan S :=
  match xs with
  | [] => Ret s
  | x :: xs' => bind (body x s) (for_in xs' body)
  end.

(** The exception with which a generator ends when exception [e] is about
    to leave its body (Python 3.7, whose kernel the notebooks name): [e]
    itself, unless it is a [StopIteration]. *)
Definition leaving `{!Exceptions exn} (e : exn) : exn :=
  if is_StopIteration e then generator_raised_StopIteration e else e.

(** A generator function with body [p]: [def f(...): p], [p] holding a
    [yield]. *)
Fixpoint generator `{!Exceptions exn} {R : Type} (p : plan R) : plan R :=
  match p with
  | Ret r => Ret r
  | Raise e => Raise (leaving e)
  | Vis m k => Vis m (fun r => generator (k r))
  | AppendNewIntList c k => AppendNewIntList c (generator k)
  end.

(** Python's [range(n)]: empty for [n <= 0]. *)
Definition range (n : Z) : list Z := seqZ 0 n.

(** Python's [str(i)] on an integer. *)
Definition str (i : Z) : string := NilZero.string_of_int (Z.to_int i).

End Plans.

Arguments Msg : clear implicits.
Arguments plan : clear implicits.
Arguments Ret {exn intensity R} r.
Arguments Raise {exn intensity R} e.
Arguments Vis {exn intensity R X} m k.
Arguments AppendNewIntList {exn intensity R} c k.
Arguments Light {intensity} on.
Arguments LoadSample {intensity} sample_num.
Arguments Count {intensity} dets md.
Arguments Scan {intensity} dets mot start stop num md.
Arguments ProcessData {intensity} uids.
Arguments SimSleep {intensity} t.
Arguments Print {intensity} s.

(** [plan] is a monad: [mret] is [return], [x ← p; q] runs [p], then [q]. *)
#[global] Instance plan_ret {exn intensity : Type}
  : MRet (plan exn intensity) := fun _ r => Ret r.
#[global] Instance plan_bind {exn intensity : Type}
  : MBind (plan exn intensity) := fun _ _ f p => bind p f.

Section Helpers.

Context {exn intensity : Type}.
Context `{!Exceptions exn}.

Abbreviation plan := (plan exn intensity).

(** ** The plans of the notebooks

    Each of the three functions is a generator function: its body, and the
    rule that a [StopIteration] does not leave a generator
    ([generator]). *)

(** The wrappers the notebooks call. *)
Definition light (on : bool) : plan unit := call (Light on).
Definition load_sample (sample_num : Z) : plan unit :=
  call (LoadSample sample_num).
Definition count (dets : list device) (md : metadata) : plan uid :=
  call (Count dets md).
Definition scan (dets : list device) (mot : device) (start stop num : Z)
  (md : metadata) : plan uid := call (Scan dets mot start stop num md).
Definition process_data_call (uids : list uid) : plan intensity :=
  call (ProcessData uids).
Definition sim_sleep (t : Z) : plan unit := call (SimSleep t).
Definition print (s : string) : plan unit := call (Print s).
Definition new_int_list_append (c : intensity) : plan unit :=
  AppendNewIntList c (Ret tt).

(** [def dark_light_collection(sample_num, num_lights = 1)]. *)
Definition num_lights_default : Z := 1.

Definition dark_light_collection_body (sample_num num_lights : Z)
  : plan (list uid) :=
  let uids := [] in
  (* close shutter if not already closed *)
  light false ;;
  (* move to desired sample *)
  load_sample sample_num ;;
  (* take dark image *)
  uid ← count [detector] ∅ ;
  let uids := uids ++ [uid] in
  (* open shutter *)
  light true ;;
  (* take light image *)
  uids ← for_in (range num_lights)
           (fun _ uids => uid ← count [detector] ∅ ; mret (uids ++ [uid]))
           uids ;
  (* close shutter to be nice to detector *)
  light false ;;
  mret uids.

Definition dark_light_collection (sample_num num_lights : Z)
  : plan (list uid) :=
  generator (dark_light_collection_body sample_num num_lights).

(** [def custom_plan(sample_num, sleep_time = 0, num_loops=1)]. *)
Definition custom_plan_body (sample_num sleep_time num_loops : Z)
  : plan unit :=
  for_in (range num_loops)
    (fun i _ =>
       print ("on loop " +:+ str i) ;;
       this_pair ← dark_light_collection sample_num num_lights_default ;
       c ← process_data_call this_pair ;
       new_int_list_append c ;;
       sim_sleep sleep_time)
    tt.

Definition custom_plan (sample_num sleep_time num_loops : Z) : plan unit :=
  generator (custom_plan_body sample_num sleep_time num_loops).

(** [def mega_plan(operator)]. *)
Definition mega_plan_body (operator : string) : plan unit :=
  let base_md : metadata := {[ "operator" := operator ]} in
  for_in ["A"; "B"; "C"]
    (fun sample _ =>
       _ ← count [det]
             (<["sample" := sample]> (<["role" := "calibration"]> base_md)) ;
       _ ← scan [det] motor (-1) 3 10
             (<["sample" := sample]> (<["role" := "ascan"]> base_md)) ;
       mret tt)
    tt.

Definition mega_plan (operator : string) : plan unit :=
  generator (mega_plan_body operator).

End Helpers.

(** ** Running a plan against a framework *)

Section Run.

Context {exn intensity W : Type}.

Abbreviation msg := (Msg intensity).

(** The framework: on request [m] in world [w] it either answers or raises,
    and leaves a new world.  The world holds whatever the framework owns:
    shutter, sample changer, detector, catalogue, simulated clock, screen. *)
Definition handler : Type := forall X : Type, msg X -> W -> (exn + X) * W.

(** A framework none of whose calls raises. *)
Definition total (th : forall X : Type, msg X -> W -> X * W) : handler :=
  fun X m w => (inr (th X m w).1, (th X m w).2).

(** One line of the record of a run: a request and what came back. *)
Inductive entry : Type :=
| Entry {X : Type} (m : msg X) (r : exn + X).

(** A request answered with [x]. *)
Definition ok {X : Type} (m : msg X) (x : X) : entry := Entry m (inr x).

Inductive result (R : Type) : Type :=
| Returned (r : R)
| Raised (e : exn).

Arguments Returned {R} r.
Arguments Raised {R} e.

(** How a run ends: the generator's result, the world the framework is left
    in, the module-level list [new_int_list], and the requests made, oldest
    first. *)
Record outcome (R : Type) : Type := Outcome {
  res : result R;
  world : W;
  new_int_list : list intensity;
  log : list entry
}.

Arguments Outcome {R} res world new_int_list log.
Arguments res {R} o.
Arguments world {R} o.
Arguments new_int_list {R} o.
Arguments log {R} o.

Definition prepend {R : Type} (l : list entry) (o : outcome R) : outcome R :=
  Outcome (res o) (world o) (new_int_list o) (l ++ log o).

(** [run h p w g]: plan [p] driven to its end by framework [h], from world
    [w] and with [new_int_list = g]. *)
Fixpoint run {R : Type} (h : handler) (p : plan exn intensity R) (w : W)
  (g : list intensity) : outcome R :=
  match p with
  | Ret r => Outcome (Returned r) w g []
  | Raise e => Outcome (Raised e) w g []
  | Vis m k =>
      let a := h _ m w in
      prepend [Entry m a.1] (run h (k a.1) a.2 g)
  | AppendNewIntList c k => run h k w (g ++ [c])
  end.

(** ** Reading the record of a run *)

(** A request with its answer forgotten. *)
Inductive request : Type :=
| Request {X : Type} (m : msg X).

Definition asked (c : entry) : request :=
  match c with Entry m _ => Request m end.

Definition succeeded (c : entry) : Prop :=
  match c with Entry _ (inr _) => True | Entry _ (inl _) => False end.

Definition is_exposure (c : entry) : bool :=
  match c with Entry (Count _ _) _ => true | _ => false end.

(** The run identifier a successful exposure came back with. *)
Definition exposure_uid (c : entry) : option uid :=
  match c with
  | @Entry X m r =>
      match m in Msg _ X return exn + X -> option uid with
      | Count _ _ => fun r => match r with inr u => Some u | inl _ => None end
      | _ => fun _ => None
      end r
  end.

(** The array a successful [process_data] call came back with. *)
Definition reduced (c : entry) : option intensity :=
  match c with
  | @Entry X m r =>
      match m in Msg _ X return exn + X -> option intensity with
      | ProcessData _ =>
          fun r => match r with inr a => Some a | inl _ => None end
      | _ => fun _ => None
      end r
  end.

(** Modelled from the spec: the shutter of [simulated_hardware], whose code
    is not among the sources ("shutter on/off"): after a [light(on)] that
    came back, the shutter is open exactly when [on] is true; no other
    request moves it. *)
Definition shutter_step (open : bool) (c : entry) : bool :=
  match c with
  | Entry (Light on) (inr _) => on
  | _ => open
  end.

Definition shutter_after (open : bool) (l : list entry) : bool :=
  foldl shutter_step open l.

(** For each exposure of the record, in order, whether the shutter was open
    when it was taken; [open] is the shutter before the first request. *)
Fixpoint exposure_shutters (open : bool) (l : list entry) : list bool :=
  match l with
  | [] => []
  | c :: l' =>
      (if is_exposure c then [open] else [])
        ++ exposure_shutters (shutter_step open c) l'
  end.

(** The first failing call ended the run, with the exception it raised:
    a run that returns made no failing call; a run that ends with [e] made
    its last call fail with [e] and no call before it failed. *)
Definition propagates {R : Type} (o : outcome R) : Prop :=
  match res o with
  | Returned _ => Forall succeeded (log o)
  | Raised e =>
      exists (pre : list entry) (X : Type) (m : msg X),
        log o = pre ++ [Entry m (inl e)] /\ Forall succeeded pre
  end.

(** The first failing call ended the run, and the exception it raised left
    the generator by Python's rule: a run that returns made no failing
    call; a run that ends with [e'] made its last call fail with some [e],
    no call before it failed, and [e'] is [e], or the [RuntimeError] in
    its place when [e] is a [StopIteration]. *)
Definition passes_on `{!Exceptions exn} {R : Type} (o : outcome R) : Prop :=
  match res o with
  | Returned _ => Forall succeeded (log o)
  | Raised e' =>
      exists (pre : list entry) (X : Type) (m : msg X) (e : exn),
        log o = pre ++ [Entry m (inl e)] /\ Forall succeeded pre /\
        e' = leaving e
  end.

(** The same inside the body of a generator, where the exception of a call
    made by the body itself is still as it was raised. *)
Definition passes_inside `{!Exceptions exn} {R : Type} (o : outcome R)
  : Prop :=
  match res o with
  | Returned _ => Forall succeeded (log o)
  | Raised e' =>
      exists (pre : list entry) (X : Type) (m : msg X) (e : exn),
        log o = pre ++ [Entry m (inl e)] /\ Forall succeeded pre /\
        (e' = e \/ e' = leaving e)
  end.

(** [new_int_list] has grown from [g] by exactly the arrays that the
    [process_data] calls of the run came back with, in the order of the
    calls. *)
Definition appended {R : Type} (g : list intensity) (o : outcome R) : Prop :=
  new_int_list o = g ++ omap reduced (log o).

End Run.

Arguments handler : clear implicits.
Arguments entry : clear implicits.
Arguments request : clear implicits.
Arguments result : clear implicits.
Arguments outcome : clear implicits.
Arguments Returned {exn R} r.
Arguments Raised {exn R} e.
Arguments Outcome {exn intensity W R} res world new_int_list log.
Arguments res {exn intensity W R} o.
Arguments world {exn intensity W R} o.
Arguments new_int_list {exn intensity W R} o.
Arguments log {exn intensity W R} o.
Arguments Entry {exn intensity X} m r.
Arguments Request {intensity X} m.

(** The exposure both collection plans ask for: [count([detector])]. *)
Abbreviation exposure := (Count [detector] ∅).

(** Metadata [md] holds the three keys with these values. *)
Definition tagged (operator role sample : string) (md : metadata) : Prop :=
  md !! "operator" = Some operator /\
  md !! "role" = Some role /\
  md !! "sample" = Some sample.

(** ** The reduction helper *)

Section Reduction.

(** Detector images and reduced curves are numpy arrays; the subtraction of
    two images and the azimuthal integration ([simple_integration]) are
    routines of libraries the notebook imports. *)
Context {image curve : Type}.
Context (image_sub : image -> image -> image).
Context (simple_integration : image -> curve).

(** Modelled from the spec: [retrieve_im] of [utils.py], which is not among
    the sources: "retrieves the corresponding images from the external
    store".  The store maps a run identifier to the image of that run;
    [None] stands for the exception of a lookup that finds no run. *)
Definition retrieve_im (catalog : gmap uid image) (u : uid) : option image :=
  catalog !! u.

(** Modelled from the spec: [process_data] of [utils.py], which is not among
    the sources: it "accepts that list of identifiers, retrieves the
    corresponding images from the external store, subtracts the first
    (dark) image from each subsequent (light) image, and applies an external
    azimuthal-integration routine to produce an intensity curve, optionally
    returning only the dark or only the light component".  The result holds
    one curve per light image (one curve for the dark component).  The spec
    does not say what happens on an empty list or when both options are set;
    here the first is an error, as [uids[0]] would be, and the second gives
    the dark component.  The [num_lights] keyword one notebook cell passes
    is not described by the spec and is not modelled: the number of light
    images is that of the identifiers after the first. *)
Definition process_data (catalog : gmap uid image) (uids : list uid)
  (return_light return_dark : bool) : option (list curve) :=
  match uids with
  | [] => None
  | dark_uid :: light_uids =>
      dark ← retrieve_im catalog dark_uid ;
      lights ← mapM (retrieve_im catalog) light_uids ;
      if return_dark then Some [simple_integration dark]
      else if return_light then Some (simple_integration <$> lights)
      else Some ((fun l => simple_integration (image_sub l dark)) <$> lights)
  end.

End Reduction.

(** ** A bench to run the plans on

    A small beamline with a one-pixel detector, on which the plans can be
    run on concrete inputs.  An exposure reads the loaded sample's number
    through an open shutter and 0 through a closed one, files the image
    under the identifier [run<k>] for the [k]-th run, and answers with that
    identifier. *)

Record beamline : Type := Beamline {
  shutter_open : bool;
  sample : option Z;
  clock : Z;
  catalog : gmap uid Z;
  n_runs : Z;
  printed : list string
}.

Definition expose (b : beamline) : uid * beamline :=
  let u := "run" +:+ str (n_runs b) in
  let pixel := if shutter_open b then default 0 (sample b) else 0 in
  (u, Beamline (shutter_open b) (sample b) (clock b)
        (<[u := pixel]> (catalog b)) (n_runs b + 1) (printed b)).

Definition bench (X : Type) (m : Msg (list Z) X) (b : beamline)
  : X * beamline :=
  match m in Msg _ X return X * beamline with
  | Light on =>
      (tt, Beamline on (sample b) (clock b) (catalog b) (n_runs b)
             (printed b))
  | LoadSample n =>
      (tt, Beamline (shutter_open b) (Some n) (clock b) (catalog b)
             (n_runs b) (printed b))
  | Count _ _ => expose b
  | Scan _ _ _ _ _ _ => expose b
  | ProcessData uids =>
      (default [] (process_data Z.sub id (catalog b) uids false false), b)
  | SimSleep t =>
      (tt, Beamline (shutter_open b) (sample b) (clock b + t) (catalog b)
             (n_runs b) (printed b))
  | Print s =>
      (tt, Beamline (shutter_open b) (sample b) (clock b) (catalog b)
             (n_runs b) (printed b ++ [s]))
  end.

(** The exceptions of the bench are named by strings. *)
#[global] Instance string_exceptions : Exceptions string := {|
  is_StopIteration e := String.eqb e "StopIteration";
  generator_raised_StopIteration _ :=
    "RuntimeError: generator raised StopIteration";
  generator_raised_is_not_StopIteration _ := eq_refl
|}.

(** The bench as it stands before a session: shutter open, no sample. *)
Definition bench0 : beamline := Beamline true None 0 ∅ 0 [].

(** A plan that is not in the notebooks: an exposure inside a [try] whose
    [except] clause drops the exception.  It serves to show what
    [propagates] rules out. *)
Definition guarded_exposure {exn intensity : Type} : plan exn intensity unit :=
  Vis exposure (fun _ => Ret tt).

(** A framework whose detector is out of order: every exposure raises. *)
Definition broken_detector (X : Type) (m : Msg (list Z) X) (b : beamline)
  : (string + X) * beamline :=
  match m in Msg _ X return (string + X) * beamline with
  | Count _ _ => (inl "detector timeout", b)
  | m' => total bench _ m' b
  end.


(** A framework whose detector raises when it is exposed through an open
    shutter, and works behind a closed one. *)
Definition saturating (X : Type) (m : Msg (list Z) X) (b : beamline)
  : (string + X) * beamline :=
  match m in Msg _ X return (string + X) * beamline with
  | Count dets md =>
      if shutter_open b then (inl "detector saturated", b)
      else total bench _ (Count dets md) b
  | m' => total bench _ m' b
  end.

(** ** More ways to read the record of a run *)

Section Shapes.

Context {exn intensity : Type}.
Context `{!Exceptions exn}.

(** The requests of [dark_light_collection(s, num_lights)] in the order of
    its statements, [n] being the number of turns of its loop. *)
Definition collection_script (s : Z) (n : nat) : list (request intensity) :=
  [Request (Light false); Request (LoadSample s); Request exposure;
   Request (Light true)]
    ++ replicate n (Request exposure) ++ [Request (Light false)].

(** The ways a run of [dark_light_collection(s, num_lights)] can go, [n]
    being the number of turns of its loop: to the end, or up to the first
    call that raises, which may be any of its calls; [f e] is the exception
    the run ends with when the call raises [e]. *)
Inductive collection_run (f : exn -> exn) (s : Z) (n : nat)
  : result exn (list uid) -> list (entry exn intensity) -> Prop :=
| collected (dark : uid) (lights : list uid) :
    length lights = n ->
    collection_run f s n (Returned (dark :: lights))
      ([ok (Light false) tt; ok (LoadSample s) tt; ok exposure dark;
        ok (Light true) tt]
         ++ (ok exposure <$> lights) ++ [ok (Light false) tt])
| close_raised (e : exn) :
    collection_run f s n (Raised (f e)) [Entry (Light false) (inl e)]
| load_raised (e : exn) :
    collection_run f s n (Raised (f e))
      [ok (Light false) tt; Entry (LoadSample s) (inl e)]
| dark_raised (e : exn) :
    collection_run f s n (Raised (f e))
      [ok (Light false) tt; ok (LoadSample s) tt; Entry exposure (inl e)]
| open_raised (e : exn) (dark : uid) :
    collection_run f s n (Raised (f e))
      [ok (Light false) tt; ok (LoadSample s) tt; ok exposure dark;
       Entry (Light true) (inl e)]
| light_raised (e : exn) (dark : uid) (lights : list uid) :
    (length lights < n)%nat ->
    collection_run f s n (Raised (f e))
      ([ok (Light false) tt; ok (LoadSample s) tt; ok exposure dark;
        ok (Light true) tt]
         ++ (ok exposure <$> lights) ++ [Entry exposure (inl e)])
| reclose_raised (e : exn) (dark : uid) (lights : list uid) :
    length lights = n ->
    collection_run f s n (Raised (f e))
      ([ok (Light false) tt; ok (LoadSample s) tt; ok exposure dark;
        ok (Light true) tt]
         ++ (ok exposure <$> lights) ++ [Entry (Light false) (inl e)]).

(** The record of one turn of the loop of [custom_plan(s, t, ...)], turn
    number [i], when no call raises: [turn] holds the identifiers of the
    dark and the light exposure and the array [process_data] came back
    with. *)
Definition turn_log (s t i : Z) (turn : uid * uid * intensity)
  : list (entry exn intensity) :=
  let '(dark, light, c) := turn in
  [ok (Print ("on loop " +:+ str i)) tt;
   ok (Light false) tt; ok (LoadSample s) tt; ok exposure dark;
   ok (Light true) tt; ok exposure light; ok (Light false) tt;
   ok (ProcessData [dark; light]) c; ok (SimSleep t) tt].

(** The time a [sim_sleep] request asks for. *)
Definition sleep_of (c : entry exn intensity) : option Z :=
  match c with Entry (SimSleep t) _ => Some t | _ => None end.

(** The metadata a request for a run carries. *)
Definition run_md (c : entry exn intensity) : option metadata :=
  match c with
  | Entry (Count _ md) _ => Some md
  | Entry (Scan _ _ _ _ _ md) _ => Some md
  | _ => None
  end.

End Shapes.

(** The requests of [mega_plan(operator)] in the order of its statements;
    each metadata dictionary is written out with its three entries. *)
Definition mega_plan_script {intensity : Type} (operator : string)
  : list (request intensity) :=
  [Request (Count [det]
     {[ "operator" := operator; "role" := "calibration"; "sample" := "A" ]});
   Request (Scan [det] motor (-1) 3 10
     {[ "operator" := operator; "role" := "ascan"; "sample" := "A" ]});
   Request (Count [det]
     {[ "operator" := operator; "role" := "calibration"; "sample" := "B" ]});
   Request (Scan [det] motor (-1) 3 10
     {[ "operator" := operator; "role" := "ascan"; "sample" := "B" ]});
   Request (Count [det]
     {[ "operator" := operator; "role" := "calibration"; "sample" := "C" ]});
   Request (Scan [det] motor (-1) 3 10
     {[ "operator" := operator; "role" := "ascan"; "sample" := "C" ]})].

(** The requests of a run are the first so many of [script], and all of
    them when the run returns. *)
Definition follows {exn intensity W R : Type}
  (script : list (request intensity)) (o : outcome exn intensity W R)
  : Prop :=
  asked <$> log o `prefix_of` script /\
  match res o with
  | Returned _ => asked <$> log o = script
  | Raised _ => True
  end.

(** However the shutter stood before, the exposures of a run see the
    shutter as the first so many entries of [pattern] say, and as all of
    them say when the run returns. *)
Definition exposes {exn intensity W R : Type} (pattern : list bool)
  (o : outcome exn intensity W R) : Prop :=
  forall open : bool,
    exposure_shutters open (log o) `prefix_of` pattern /\
    match res o with
    | Returned _ => exposure_shutters open (log o) = pattern
    | Raised _ => True
    end.

(** A keyword query selects the metadata that hold each of its keys with the
    value the query gives. *)
Definition selects (query md : metadata) : Prop := query ⊆ md.

#[global] Instance selects_dec (query md : metadata)
  : Decision (selects query md).
Proof. unfold selects. apply _. Defined.

(** ** The error bar of a fit *)

(** The exceptions of Python's subscripts. *)
Inductive lookup_error : Type :=
| KeyError (key : string)
| IndexError.

(** Python's [l[i]] on a list: a negative [i] counts from the end. *)
Definition subscript {A : Type} (l : list A) (i : Z) : lookup_error + A :=
  let j := if decide (i < 0) then Z.of_nat (length l) + i else i in
  if decide (j < 0) then inl IndexError
  else match l !! Z.to_nat j with
       | Some a => inr a
       | None => inl IndexError
       end.

Section Errorbar.

(** The numbers of a fit are floating-point; their subtraction is a
    parameter. *)
Context {number : Type}.
Context (minus : number -> number -> number).

(** [def errorbar(lmfit_result, param_name)], with [ci] the dictionary that
    [lmfit_result.conf_interval()] came back with: for each parameter the
    list of (probability, value) pairs of its confidence intervals.  The
    left operand of the subtraction is evaluated first. *)
Definition errorbar (ci : gmap string (list (number * number)))
  (param_name : string) : lookup_error + number :=
  match ci !! param_name with
  | None => inl (KeyError param_name)
  | Some intervals =>
      match subscript intervals (-2) with
      | inl err => inl err
      | inr upper =>
          match subscript intervals 1 with
          | inl err => inl err
          | inr lower => inr (minus upper.2 lower.2)
          end
      end
  end.

End Errorbar.

(** ** The Gaussian of the fit *)

Section Gaussian.

Local Open Scope float_scope.

(** The numbers are binary64 ([float]); [+], [-], [*], [/] and unary [-]
    round as IEEE 754 prescribes.  [np.exp] is a parameter.  [y**2] is
    the correctly rounded square [y * y], which is what numpy's [power]
    computes for the exponent 2. *)
Context (exp : float -> float).

(** The argument handed to [np.exp]:
    [-(x - x0)**2 / (2 * sigma**2)].  The unary minus binds weaker than
    [**] and tighter than [/]. *)
Definition exponent (x sigma x0 : float) : float :=
  (- ((x - x0) * (x - x0))) / (2 * (sigma * sigma)).

(** [def gaussian(x, A, sigma, x0):
       return A * np.exp(-(x - x0)**2 / (2 * sigma**2))]. *)
Definition gaussian (x A sigma x0 : float) : float :=
  A * exp (exponent x sigma x0).

End Gaussian.

(** An exponential to run [gaussian] with: the Taylor polynomial of degree
    [n] at [y], by Horner's rule, [i] counting the terms.  With 30 terms it
    is a fair exponential near 0 and, like [np.exp], takes NaN to NaN. *)
Fixpoint exp_terms (n : nat) (i y : float) : float :=
  match n with
  | O => 1
  | S n' => 1 + y / i * exp_terms n' (i + 1) y
  end%float.

Definition exp_series (y : float) : float := exp_terms 30 1 y.



(** * Properties *)

Section Semantics.

Context {exn intensity W : Type}.
Context `{!Exceptions exn}.
Context (h : handler exn intensity W).

Implicit Types (w : W) (g : list intensity).

Lemma prepend_nil {R : Type} (o : outcome exn intensity W R) :
  prepend [] o = o.
Proof. by destruct o. Qed.

(** Sequencing: the second plan runs where the first returned; an exception
    of the first is the exception of the whole. *)
Lemma run_bind {A B : Type} (p : plan exn intensity A)
  (f : A -> plan exn intensity B) w g :
  run h (p ≫= f) w g =
  match res (run h p w g) with
  | Returned a =>
      prepend (log (run h p w g))
        (run h (f a) (world (run h p w g)) (new_int_list (run h p w g)))
  | Raised e =>
      Outcome (Raised e) (world (run h p w g)) (new_int_list (run h p w g))
        (log (run h p w g))
  end.
Proof.
  unfold mbind, plan_bind.
  revert w g; induction p as [a|e|X m k IH|c k IH]; intros w g; simpl.
  - by rewrite prepend_nil.
  - done.
  - rewrite IH. by destruct (res (run h (k _) _ g)).
  - apply IH.
Qed.

Lemma run_ret {A : Type} (a : A) w g :
  run h (mret a) w g = Outcome (Returned a) w g [].
Proof. done. Qed.

Lemma run_bind_returned {A B : Type} (p : plan exn intensity A)
  (f : A -> plan exn intensity B) w g a w' g' l :
  run h p w g = Outcome (Returned a) w' g' l ->
  run h (p ≫= f) w g = prepend l (run h (f a) w' g').
Proof. intros Hp. by rewrite run_bind, Hp. Qed.

Lemma run_bind_raised {A B : Type} (p : plan exn intensity A)
  (f : A -> plan exn intensity B) w g e w' g' l :
  run h p w g = Outcome (Raised e) w' g' l ->
  run h (p ≫= f) w g = Outcome (Raised e) w' g' l.
Proof. intros Hp. by rewrite run_bind, Hp. Qed.

Lemma for_in_cons {A S : Type} (x : A) (xs : list A)
  (body : A -> S -> plan exn intensity S) (s : S) :
  for_in (x :: xs) body s = body x s ≫= for_in xs body.
Proof. done. Qed.

Lemma run_call {X : Type} (m : Msg intensity X) w g :
  run h (call m) w g =
  Outcome (match (h X m w).1 with inl e => Raised e | inr x => Returned x end)
    (h X m w).2 g [Entry m (h X m w).1].
Proof. unfold call; simpl. by destruct (h X m w).1. Qed.

Lemma run_append (c : intensity) w g :
  run h (new_int_list_append c) w g = Outcome (Returned tt) w (g ++ [c]) [].
Proof. done. Qed.

(** A generator runs as its body does, but for the exception it ends
    with. *)
Lemma run_generator {R : Type} (p : plan exn intensity R) w g :
  run h (generator p) w g =
  Outcome
    match res (run h p w g) with
    | Returned r => Returned r
    | Raised e => Raised (leaving e)
    end
    (world (run h p w g)) (new_int_list (run h p w g)) (log (run h p w g)).
Proof.
  revert w g; induction p as [a|e|X m k IH|c k IH]; intros w g; simpl.
  - done.
  - done.
  - rewrite IH. by destruct (res (run h (k _) _ g)).
  - apply IH.
Qed.

Lemma run_generator_returned {R : Type} (p : plan exn intensity R)
  w g (a : R) w' g' l :
  run h p w g = Outcome (Returned a) w' g' l ->
  run h (generator p) w g = Outcome (Returned a) w' g' l.
Proof. intros Hp. by rewrite run_generator, Hp. Qed.

Lemma leaving_leaving (e : exn) : leaving (leaving e) = leaving e.
Proof.
  unfold leaving. destruct (is_StopIteration e) eqn:He.
  - by rewrite generator_raised_is_not_StopIteration.
  - by rewrite He.
Qed.

(** ** Exceptions pass through *)

Lemma passes_inside_call {X : Type} (m : Msg intensity X) w g :
  passes_inside (run h (call m) w g).
Proof.
  rewrite run_call; unfold passes_inside; simpl.
  destruct (h X m w).1 as [e|x]; simpl.
  - exists [], X, m, e. auto.
  - by repeat constructor.
Qed.

Lemma passes_inside_bind {A B : Type} (p : plan exn intensity A)
  (f : A -> plan exn intensity B) w g :
  passes_inside (run h p w g) ->
  (forall a w' g', passes_inside (run h (f a) w' g')) ->
  passes_inside (run h (p ≫= f) w g).
Proof.
  intros Hp Hf. rewrite run_bind. unfold passes_inside in Hp.
  destruct (res (run h p w g)) as [a|e]; [|exact Hp].
  specialize (Hf a (world (run h p w g)) (new_int_list (run h p w g))).
  unfold passes_inside in *; simpl.
  destruct (res (run h (f a) _ _)) as [b|e].
  - by apply Forall_app.
  - destruct Hf as (pre & X & m & e0 & -> & Hpre & He).
    exists (log (run h p w g) ++ pre), X, m, e0. split; [|split].
    + by rewrite app_assoc.
    + by apply Forall_app.
    + done.
Qed.

Lemma passes_inside_ret {A : Type} (a : A) w g :
  passes_inside (run h (mret a) w g).
Proof. by constructor. Qed.


Lemma passes_inside_for_in {A S : Type} (xs : list A)
  (body : A -> S -> plan exn intensity S) :
  (forall x s w g, passes_inside (run h (body x s) w g)) ->
  forall s w g, passes_inside (run h (for_in xs body s) w g).
Proof.
  intros Hbody. induction xs as [|x xs IH]; intros s w g; simpl.
  - by constructor.
  - apply (passes_inside_bind (body x s)); auto.
Qed.

(** What a generator lets out is what its body lets out, by the rule. *)
Lemma passes_on_generator {R : Type} (p : plan exn intensity R) w g :
  passes_inside (run h p w g) -> passes_on (run h (generator p) w g).
Proof.
  unfold passes_inside, passes_on. rewrite run_generator; cbn [res log].
  destruct (res (run h p w g)) as [a|e']; [done|].
  intros (pre & X & m & e & Hlog & Hpre & [->| ->]);
    exists pre, X, m, e; repeat split; auto using leaving_leaving.
Qed.




Lemma passes_on_mega_plan (operator : string) w g :
  passes_on (run h (mega_plan operator) w g).
Proof.
  apply passes_on_generator.
  unfold mega_plan_body, count, scan.
  apply passes_inside_for_in; intros.
  repeat first
    [ apply passes_inside_call
    | apply passes_inside_ret
    | apply passes_inside_bind; [|intros] ].
Qed.

(** ** What the plans leave in [new_int_list] *)

Lemma new_int_list_call {X : Type} (m : Msg intensity X) w g :
  new_int_list (run h (call m) w g) = g.
Proof. by rewrite run_call. Qed.

Lemma new_int_list_bind {A B : Type} (p : plan exn intensity A)
  (f : A -> plan exn intensity B) w g :
  new_int_list (run h p w g) = g ->
  (forall a w' g', new_int_list (run h (f a) w' g') = g') ->
  new_int_list (run h (p ≫= f) w g) = g.
Proof.
  intros Hp Hf. rewrite run_bind.
  destruct (res (run h p w g)); simpl; [by rewrite Hf|done].
Qed.

Lemma new_int_list_for_in {A S : Type} (xs : list A)
  (body : A -> S -> plan exn intensity S) :
  (forall x s w g, new_int_list (run h (body x s) w g) = g) ->
  forall s w g, new_int_list (run h (for_in xs body s) w g) = g.
Proof.
  intros Hbody. induction xs as [|x xs IH]; intros s w g; simpl; [done|].
  apply (new_int_list_bind (body x s)); auto.
Qed.

Lemma new_int_list_dark_light_collection s n w g :
  new_int_list (run h (dark_light_collection s n) w g) = g.
Proof.
  unfold dark_light_collection. rewrite run_generator; cbn [new_int_list].
  unfold dark_light_collection_body, light, load_sample, count.
  repeat first
    [ apply new_int_list_call
    | reflexivity
    | apply new_int_list_for_in; intros
    | apply new_int_list_bind; [|intros] ].
Qed.

(** ** What [custom_plan] leaves in [new_int_list] *)

Lemma appended_ret {A : Type} (a : A) w g :
  appended g (run h (mret a) w g).
Proof. unfold appended; simpl. by rewrite app_nil_r. Qed.

Lemma appended_call {X : Type} (m : Msg intensity X) w g :
  (forall r : exn + X, reduced (Entry m r) = None) ->
  appended g (run h (call m) w g).
Proof.
  intros Hm. rewrite run_call.
  unfold appended; cbn [new_int_list log omap list_omap].
  by rewrite Hm, app_nil_r.
Qed.

Lemma appended_bind {A B : Type} (p : plan exn intensity A)
  (f : A -> plan exn intensity B) w g :
  appended g (run h p w g) ->
  (forall a w' g', appended g' (run h (f a) w' g')) ->
  appended g (run h (p ≫= f) w g).
Proof.
  unfold appended. intros Hp Hf. rewrite run_bind.
  destruct (res (run h p w g)) as [a|e]; [|exact Hp]. csimpl.
  by rewrite Hf, Hp, omap_app, app_assoc.
Qed.

Lemma appended_for_in {A S : Type} (xs : list A)
  (body : A -> S -> plan exn intensity S) :
  (forall x s w g, appended g (run h (body x s) w g)) ->
  forall s w g, appended g (run h (for_in xs body s) w g).
Proof.
  intros Hbody. induction xs as [|x xs IH]; intros s w g.
  - apply (appended_ret s).
  - rewrite for_in_cons. apply appended_bind; auto.
Qed.

Lemma appended_generator {R : Type} (p : plan exn intensity R) w g :
  appended g (run h p w g) -> appended g (run h (generator p) w g).
Proof. unfold appended. by rewrite run_generator. Qed.

Lemma appended_dark_light_collection s n w g :
  appended g (run h (dark_light_collection s n) w g).
Proof.
  apply appended_generator.
  unfold dark_light_collection_body, light, load_sample, count.
  repeat first
    [ apply appended_call; done
    | apply appended_ret
    | apply appended_for_in; intros
    | apply appended_bind; [|intros] ].
Qed.

(** The reduction of one pair: the array that comes back is appended, and
    nothing is appended when the call raises. *)
Lemma appended_reduction (this_pair : list uid) (t : Z) w g :
  appended g
    (run h (c ← process_data_call this_pair ;
            new_int_list_append c ;; sim_sleep t) w g).
Proof.
  unfold process_data_call, sim_sleep, appended.
  rewrite run_bind, run_call; cbn [res world new_int_list log].
  destruct (h _ (ProcessData this_pair) w).1 as [e|c].
  - cbn. by rewrite app_nil_r.
  - rewrite run_bind, run_append; cbn [res world new_int_list log].
    rewrite run_call. reflexivity.
Qed.

Lemma appended_custom_plan s t n w g :
  appended g (run h (custom_plan s t n) w g).
Proof.
  apply appended_generator.
  unfold custom_plan_body, print.
  apply appended_for_in; intros.
  apply appended_bind; [by apply appended_call|intros].
  apply appended_bind; [apply appended_dark_light_collection|intros].
  apply appended_reduction.
Qed.

End Semantics.

Section Total.

Context {exn intensity W : Type}.
Context `{!Exceptions exn}.
Context (th : forall X : Type, Msg intensity X -> W -> X * W).

Implicit Types (w : W) (g : list intensity).

Lemma run_call_total {X : Type} (m : Msg intensity X) w g :
  run (exn:=exn) (total th) (call m) w g =
  Outcome (Returned (th X m w).1) (th X m w).2 g [ok m (th X m w).1].
Proof. by rewrite run_call. Qed.

(** One step of a run: the call at the head of the plan was answered as
    equation [H] says. *)
Ltac answered H :=
  erewrite run_bind_returned
    by (rewrite run_call_total, H; cbn [fst snd]; reflexivity).

(** The loop of light exposures: one exposure per turn, each identifier
    appended to the list. *)
Lemma run_light_loop {A : Type} (xs : list A) (uids : list uid) w g :
  exists (lights : list uid) (w' : W),
    length lights = length xs /\
    run (exn:=exn) (total th)
      (for_in xs
         (fun _ uids => uid ← count [detector] ∅ ; mret (uids ++ [uid]))
         uids) w g =
    Outcome (Returned (uids ++ lights)) w' g (ok exposure <$> lights).
Proof.
  unfold count.
  revert uids w; induction xs as [|x xs IH]; intros uids w.
  - exists [], w. by rewrite app_nil_r.
  - destruct (IH (uids ++ [(th _ exposure w).1]) (th _ exposure w).2)
      as (lights & w' & Hlen & Hrun).
    exists ((th _ exposure w).1 :: lights), w'. split; [simpl; lia|].
    rewrite for_in_cons.
    erewrite run_bind_returned; cycle 1.
    { erewrite run_bind_returned by apply run_call_total.
      rewrite run_ret. unfold prepend; cbn [res world new_int_list log app].
      reflexivity. }
    rewrite Hrun; unfold prepend; simpl.
    by rewrite <- app_assoc.
Qed.

(** The whole collection, when no call raises. *)
Lemma run_dark_light_collection (s n : Z) w g :
  exists (dark : uid) (lights : list uid) (w' : W),
    length lights = Z.to_nat n /\
    run (exn:=exn) (total th) (dark_light_collection s n) w g =
    Outcome (Returned (dark :: lights)) w' g
      ([ok (Light false) tt; ok (LoadSample s) tt; ok exposure dark;
        ok (Light true) tt]
         ++ (ok exposure <$> lights) ++ [ok (Light false) tt]).
Proof.
  destruct (th _ (Light false) w) as [[] w1] eqn:H1.
  destruct (th _ (LoadSample s) w1) as [[] w2] eqn:H2.
  destruct (th _ exposure w2) as [dark w3] eqn:H3.
  destruct (th _ (Light true) w3) as [[] w4] eqn:H4.
  destruct (run_light_loop (range n) [dark] w4 g)
    as (lights & w5 & Hlen & Hrun).
  destruct (th _ (Light false) w5) as [[] w6] eqn:H6.
  exists dark, lights, w6. split.
  { rewrite Hlen. unfold range. apply length_seqZ. }
  apply run_generator_returned.
  unfold dark_light_collection_body, light, load_sample, count.
  answered H1. answered H2. answered H3. answered H4.
  erewrite run_bind_returned by (unfold count in Hrun; exact Hrun).
  answered H6.
  reflexivity.
Qed.

(** One turn of the loop of [custom_plan], when no call raises: the line
    printed, one dark and one light exposure, their reduction appended to
    [new_int_list], the sleep. *)
Lemma run_custom_plan_turn (s t i : Z) w g :
  exists (dark light : uid) (c : intensity) (w' : W),
    run (exn:=exn) (total th)
      (print ("on loop " +:+ str i) ;;
       this_pair ← dark_light_collection s num_lights_default ;
       c ← process_data_call this_pair ;
       new_int_list_append c ;;
       sim_sleep t) w g =
    Outcome (Returned tt) w' (g ++ [c])
      [ok (Print ("on loop " +:+ str i)) tt;
       ok (Light false) tt; ok (LoadSample s) tt; ok exposure dark;
       ok (Light true) tt; ok exposure light; ok (Light false) tt;
       ok (ProcessData [dark; light]) c; ok (SimSleep t) tt].
Proof.
  destruct (th _ (Print ("on loop " +:+ str i)) w) as [[] w1] eqn:H1.
  destruct (run_dark_light_collection s num_lights_default w1 g)
    as (dark & lights & w2 & Hlen & Hrun).
  destruct lights as [|light [|? ?]]; try discriminate Hlen.
  destruct (th _ (ProcessData [dark; light]) w2) as [c w3] eqn:H3.
  destruct (th _ (SimSleep t) w3) as [[] w4] eqn:H4.
  exists dark, light, c, w4.
  unfold print, process_data_call, sim_sleep.
  answered H1.
  erewrite run_bind_returned by exact Hrun.
  answered H3.
  erewrite run_bind_returned by apply run_append.
  rewrite run_call_total, H4. reflexivity.
Qed.

Lemma run_custom_plan_loop (s t : Z) (xs : list Z) w g :
  exists (cs : list intensity) (w' : W) (l : list (entry exn intensity)),
    length cs = length xs /\
    omap reduced l = cs /\
    run (exn:=exn) (total th)
      (for_in xs
         (fun i _ =>
            print ("on loop " +:+ str i) ;;
            this_pair ← dark_light_collection s num_lights_default ;
            c ← process_data_call this_pair ;
            new_int_list_append c ;;
            sim_sleep t) tt) w g =
    Outcome (Returned tt) w' (g ++ cs) l.
Proof.
  revert w g; induction xs as [|i xs IH]; intros w g.
  - exists [], w, []. by rewrite app_nil_r.
  - destruct (run_custom_plan_turn s t i w g)
      as (dark & light & c & w1 & Hturn).
    destruct (IH w1 (g ++ [c])) as (cs & w2 & l & Hlen & Hl & Hrun).
    eexists (c :: cs), w2, _. split; [simpl; lia|].
    rewrite for_in_cons.
    erewrite run_bind_returned by exact Hturn.
    rewrite Hrun. unfold prepend; cbn [res world new_int_list log].
    split; [|by rewrite <- app_assoc].
    rewrite omap_app, Hl. reflexivity.
Qed.

Lemma run_custom_plan (s t n : Z) w g :
  exists (cs : list intensity) (w' : W) (l : list (entry exn intensity)),
    length cs = Z.to_nat n /\
    omap reduced l = cs /\
    run (exn:=exn) (total th) (custom_plan s t n) w g =
    Outcome (Returned tt) w' (g ++ cs) l.
Proof.
  destruct (run_custom_plan_loop s t (range n) w g)
    as (cs & w' & l & Hlen & Hl & Hrun).
  exists cs, w', l. unfold range in Hlen. rewrite length_seqZ in Hlen.
  split; [done|]. split; [done|].
  by apply run_generator_returned.
Qed.

(** [mega_plan], when no call raises: six runs. *)
Lemma run_mega_plan (operator : string) w g :
  exists (u1 u2 u3 u4 u5 u6 : uid) (w' : W),
    run (exn:=exn) (total th) (mega_plan operator) w g =
    Outcome (Returned tt) w' g
      [ok (Count [det] (<["sample" := "A"]>
             (<["role" := "calibration"]> {[ "operator" := operator ]}))) u1;
       ok (Scan [det] motor (-1) 3 10 (<["sample" := "A"]>
             (<["role" := "ascan"]> {[ "operator" := operator ]}))) u2;
       ok (Count [det] (<["sample" := "B"]>
             (<["role" := "calibration"]> {[ "operator" := operator ]}))) u3;
       ok (Scan [det] motor (-1) 3 10 (<["sample" := "B"]>
             (<["role" := "ascan"]> {[ "operator" := operator ]}))) u4;
       ok (Count [det] (<["sample" := "C"]>
             (<["role" := "calibration"]> {[ "operator" := operator ]}))) u5;
       ok (Scan [det] motor (-1) 3 10 (<["sample" := "C"]>
             (<["role" := "ascan"]> {[ "operator" := operator ]}))) u6].
Proof.
  (* each answer is a projection of [th] at the world reached so far *)
  repeat eexists.
Qed.

End Total.

(** ** The collection plan *)

Section Collection.

Context {exn intensity W : Type}.
Context `{!Exceptions exn}.
Context (th : forall X : Type, Msg intensity X -> W -> X * W).

Implicit Types (w : W) (g : list intensity) (s n : Z).

Lemma asked_exposures (lights : list uid) :
  asked <$> (ok (exn:=exn) (intensity:=intensity) exposure <$> lights) =
  replicate (length lights) (Request exposure).
Proof. induction lights as [|u us IH]; csimpl; [done|by rewrite IH]. Qed.

Lemma exposure_uid_exposures (lights : list uid) :
  omap exposure_uid (ok (exn:=exn) (intensity:=intensity) exposure <$> lights)
  = lights.
Proof. induction lights as [|u us IH]; csimpl; [done|by rewrite IH]. Qed.

Lemma exposure_shutters_lights (lights : list uid)
  (l : list (entry exn intensity)) :
  exposure_shutters true ((ok exposure <$> lights) ++ l) =
  replicate (length lights) true ++ exposure_shutters true l.
Proof. induction lights as [|u us IH]; csimpl; [done|by rewrite IH]. Qed.

Lemma shutter_after_app (open : bool) (l1 l2 : list (entry exn intensity)) :
  shutter_after open (l1 ++ l2) = shutter_after (shutter_after open l1) l2.
Proof. apply foldl_app. Qed.

Lemma shutter_after_lights (open : bool) (lights : list uid) :
  shutter_after open (ok (exn:=exn) (intensity:=intensity) exposure <$> lights)
  = open.
Proof. induction lights as [|u us IH]; simpl; done. Qed.

Lemma filter_exposures (lights : list uid) (l : list (entry exn intensity)) :
  List.filter is_exposure ((ok exposure <$> lights) ++ l) =
  (ok exposure <$> lights) ++ List.filter is_exposure l.
Proof. induction lights as [|u us IH]; csimpl; [done|by rewrite IH]. Qed.

(** C1: for every sample number [s] and every [n >= 1], with a framework
    whose calls come back, [dark_light_collection(s, num_lights=n)] returns
    [dark :: lights]: [dark] is the identifier of the one exposure taken
    between closing and opening the shutter, [lights] are the identifiers
    of the [n] exposures taken after opening it, in the order they were
    taken; the returned list is the list of identifiers of all exposures
    of the run, in order. *)
Theorem dark_light_collection_returns_dark_then_lights s n w g :
  1 <= n ->
  exists (dark : uid) (lights : list uid),
    res (run (exn:=exn) (total th) (dark_light_collection s n) w g)
      = Returned (dark :: lights) /\
    Z.of_nat (length lights) = n /\
    log (run (exn:=exn) (total th) (dark_light_collection s n) w g)
      = [ok (Light false) tt; ok (LoadSample s) tt; ok exposure dark;
         ok (Light true) tt]
          ++ (ok exposure <$> lights) ++ [ok (Light false) tt] /\
    omap exposure_uid
      (log (run (exn:=exn) (total th) (dark_light_collection s n) w g))
      = dark :: lights.
Proof.
  intros Hn.
  destruct (run_dark_light_collection (exn:=exn) th s n w g)
    as (dark & lights & w' & Hlen & ->).
  exists dark, lights; csimpl. repeat split; [lia|].
  rewrite omap_app, exposure_uid_exposures; csimpl. by rewrite app_nil_r.
Qed.

(** C3: for every sample number [s] and every [num_lights = n], a run of
    [dark_light_collection(s, n)] whose calls come back makes exactly these
    requests, in this order: close the shutter, load sample [s], one
    exposure, open the shutter, [n] exposures (none when [n <= 0]), close
    the shutter.  So whatever the shutter was before, the first exposure is
    taken with the shutter closed, every later one with the shutter open,
    and the shutter is closed at the end. *)
Theorem dark_light_collection_order s n w g (open : bool) :
  let o := run (exn:=exn) (total th) (dark_light_collection s n) w g in
  asked <$> log o
    = [Request (Light false); Request (LoadSample s); Request exposure;
       Request (Light true)]
        ++ replicate (Z.to_nat n) (Request exposure)
        ++ [Request (Light false)] /\
  exposure_shutters open (log o) = false :: replicate (Z.to_nat n) true /\
  shutter_after open (log o) = false.
Proof.
  destruct (run_dark_light_collection (exn:=exn) th s n w g)
    as (dark & lights & w' & Hlen & ->).
  cbn [log]. rewrite <- Hlen. split; [|split].
  - rewrite !fmap_app, asked_exposures. done.
  - csimpl. rewrite exposure_shutters_lights; simpl. by rewrite app_nil_r.
  - by rewrite !shutter_after_app, shutter_after_lights.
Qed.

(** C7: for every sample number [s] and every [n >= 0], a run of
    [dark_light_collection(s, num_lights=n)] whose calls come back takes
    exactly [n + 1] exposures and returns exactly [n + 1] identifiers; with
    the default [num_lights = 1] it returns two; with [num_lights = 0] it
    returns the identifier of the dark exposure alone, having taken no
    other exposure. *)
Theorem dark_light_collection_counts s n w g :
  0 <= n ->
  (exists uids : list uid,
     res (run (exn:=exn) (total th) (dark_light_collection s n) w g)
       = Returned uids /\
     Z.of_nat (length uids) = n + 1 /\
     Z.of_nat (length (List.filter is_exposure
       (log (run (exn:=exn) (total th) (dark_light_collection s n) w g))))
       = n + 1) /\
  (exists dark light : uid,
     res (run (exn:=exn) (total th)
            (dark_light_collection s num_lights_default) w g)
       = Returned [dark; light]) /\
  (exists dark : uid,
     res (run (exn:=exn) (total th) (dark_light_collection s 0) w g)
       = Returned [dark] /\
     List.filter is_exposure
       (log (run (exn:=exn) (total th) (dark_light_collection s 0) w g))
       = [ok exposure dark]).
Proof.
  intros Hn. split; [|split].
  - destruct (run_dark_light_collection (exn:=exn) th s n w g)
      as (dark & lights & w' & Hlen & ->).
    exists (dark :: lights); simpl. split; [done|]. split; [lia|].
    rewrite filter_exposures; simpl.
    rewrite length_app, length_fmap; simpl. lia.
  - destruct (run_dark_light_collection (exn:=exn) th s num_lights_default w g)
      as (dark & lights & w' & Hlen & ->).
    destruct lights as [|light [|? ?]]; try discriminate Hlen.
    by exists dark, light.
  - destruct (run_dark_light_collection (exn:=exn) th s 0 w g)
      as (dark & lights & w' & Hlen & ->).
    destruct lights; [|discriminate Hlen].
    by exists dark.
Qed.

End Collection.

(** ** State outside the plans, and exceptions *)

Section Frame.

Context {exn intensity W : Type}.
Context `{!Exceptions exn}.

Implicit Types (w : W) (g : list intensity) (s t n : Z).

(** C4, as amended: [dark_light_collection] never touches the module-level
    list [new_int_list], whatever the framework does; [custom_plan] does
    write it: after a run, [new_int_list] is what it was, followed by
    exactly the arrays its [process_data] calls came back with, in order;
    and when no call raises, [custom_plan(s, t, n)] returns after [n] turns
    (none for [n <= 0]) with one array appended per turn. *)
Theorem helpers_and_new_int_list (h : handler exn intensity W)
  (th : forall X : Type, Msg intensity X -> W -> X * W) w g :
  (forall s n, new_int_list (run h (dark_light_collection s n) w g) = g) /\
  (forall s t n,
     new_int_list (run h (custom_plan s t n) w g)
     = g ++ omap reduced (log (run h (custom_plan s t n) w g))) /\
  (forall s t n,
     res (run (exn:=exn) (total th) (custom_plan s t n) w g) = Returned tt /\
     length (omap reduced
       (log (run (exn:=exn) (total th) (custom_plan s t n) w g)))
     = Z.to_nat n /\
     length (new_int_list
       (run (exn:=exn) (total th) (custom_plan s t n) w g))
     = (length g + Z.to_nat n)%nat).
Proof.
  split; [|split].
  - intros s n. apply new_int_list_dark_light_collection.
  - intros s t n. apply appended_custom_plan.
  - intros s t n.
    destruct (run_custom_plan th s t n w g)
      as (cs & w' & l & Hlen & Hl & ->).
    cbn [res log new_int_list].
    rewrite Hl, length_app. auto with lia.
Qed.


(** C9: for every operator string [operator], a run of
    [mega_plan(operator)] whose calls come back makes exactly six requests,
    each for one run: for the samples A, B, C in this order, a count on
    [det] and then a scan of [det] over [motor] from -1 to 3 in 10 points;
    the metadata of each count holds operator, role [calibration] and the
    sample, that of each scan operator, role [ascan] and the sample. *)
Theorem mega_plan_six_runs
  (th : forall X : Type, Msg intensity X -> W -> X * W)
  (operator : string) w g :
  exists calibration ascan : string -> metadata,
    asked <$> log (run (exn:=exn) (total th) (mega_plan operator) w g)
    = [Request (Count [det] (calibration "A"));
       Request (Scan [det] motor (-1) 3 10 (ascan "A"));
       Request (Count [det] (calibration "B"));
       Request (Scan [det] motor (-1) 3 10 (ascan "B"));
       Request (Count [det] (calibration "C"));
       Request (Scan [det] motor (-1) 3 10 (ascan "C"))] /\
    res (run (exn:=exn) (total th) (mega_plan operator) w g) = Returned tt /\
    forall sample : string,
      tagged operator "calibration" sample (calibration sample) /\
      tagged operator "ascan" sample (ascan sample).
Proof.
  destruct (run_mega_plan (exn:=exn) th operator w g)
    as (u1 & u2 & u3 & u4 & u5 & u6 & w' & ->).
  exists (fun sample => <["sample" := sample]>
            (<["role" := "calibration"]> {[ "operator" := operator ]})),
         (fun sample => <["sample" := sample]>
            (<["role" := "ascan"]> {[ "operator" := operator ]})).
  split; [done|]. split; [done|].
  intros sample. unfold tagged.
  repeat split; by simplify_map_eq.
Qed.

End Frame.

(** ** The reduction helper *)

Section ReductionProperties.

Context {image curve : Type}.
Context (image_sub : image -> image -> image).
Context (simple_integration : image -> curve).

(** C2: when the first identifier names a run of the store with image
    [dark] and the others name runs with images [lights], [process_data]
    returns, for each light image in order, the integration of that image
    minus [dark]; with [return_dark=True] it returns the integration of
    [dark] alone, and with [return_light=True] the integrations of the light
    images with nothing subtracted. *)
Theorem process_data_reduces (catalog : gmap uid image)
  (dark_uid : uid) (light_uids : list uid)
  (dark : image) (lights : list image) :
  catalog !! dark_uid = Some dark ->
  Forall2 (fun u im => catalog !! u = Some im) light_uids lights ->
  process_data image_sub simple_integration catalog
    (dark_uid :: light_uids) false false
  = Some ((fun l => simple_integration (image_sub l dark)) <$> lights) /\
  process_data image_sub simple_integration catalog
    (dark_uid :: light_uids) false true
  = Some [simple_integration dark] /\
  process_data image_sub simple_integration catalog
    (dark_uid :: light_uids) true false
  = Some (simple_integration <$> lights).
Proof.
  intros Hdark Hlights.
  assert (mapM (retrieve_im catalog) light_uids = Some lights) as Hm
    by (by apply mapM_Some).
  unfold process_data.
  change (retrieve_im catalog dark_uid) with (catalog !! dark_uid).
  rewrite Hdark; cbn [mbind option_bind]. rewrite Hm. done.
Qed.

End ReductionProperties.

(** ** Rounding to binary64 *)

Section Rounding.












End Rounding.

(** ** [gaussian] on binary64 *)

Section GaussianProperties.

Local Open Scope float_scope.

Context (exp : float -> float).


















End GaussianProperties.

(** * Further properties *)

(** ** [dark_light_collection] under any framework *)

Section AnyFramework.

Context {exn intensity W : Type}.
Context `{!Exceptions exn}.
Context (h : handler exn intensity W).

Implicit Types (w : W) (g : list intensity) (s t n : Z).

Lemma run_call_ok {X : Type} (m : Msg intensity X) (x : X) w w' g :
  h X m w = (inr x, w') ->
  run h (call m) w g = Outcome (Returned x) w' g [ok m x].
Proof. intros Hm. by rewrite run_call, Hm. Qed.

Lemma run_call_raised {X : Type} (m : Msg intensity X) (e : exn) w w' g :
  h X m w = (inl e, w') ->
  run h (call m) w g = Outcome (Raised e) w' g [Entry m (inl e)].
Proof. intros Hm. by rewrite run_call, Hm. Qed.

(** The loop of light exposures ends at the first exposure that raises. *)
Lemma run_light_loop_any {A : Type} (xs : list A) (uids : list uid) w g :
  (exists (lights : list uid) (w' : W),
     length lights = length xs /\
     run h
       (for_in xs
          (fun _ uids => uid ← call exposure ; mret (uids ++ [uid]))
          uids) w g =
     Outcome (Returned (uids ++ lights)) w' g (ok exposure <$> lights)) \/
  (exists (lights : list uid) (e : exn) (w' : W),
     (length lights < length xs)%nat /\
     run h
       (for_in xs
          (fun _ uids => uid ← call exposure ; mret (uids ++ [uid]))
          uids) w g =
     Outcome (Raised e) w' g
       ((ok exposure <$> lights) ++ [Entry exposure (inl e)])).
Proof.
  revert uids w; induction xs as [|x xs IH]; intros uids w.
  - left. exists [], w. by rewrite app_nil_r.
  - rewrite for_in_cons.
    destruct (h _ exposure w) as [[e|u] w1] eqn:H1.
    + right. exists [], e, w1. split; [simpl; lia|].
      erewrite run_bind_raised; [reflexivity|].
      erewrite run_bind_raised; [reflexivity|].
      by apply run_call_raised.
    + erewrite run_bind_returned; cycle 1.
      { erewrite run_bind_returned by (by apply run_call_ok).
        rewrite run_ret. unfold prepend; cbn [res world new_int_list log app].
        reflexivity. }
      destruct (IH (uids ++ [u]) w1)
        as [(lights & w' & Hlen & ->)|(lights & e & w' & Hlen & ->)].
      * left. exists (u :: lights), w'. split; [simpl; lia|].
        unfold prepend; simpl. by rewrite <- app_assoc.
      * right. exists (u :: lights), e, w'. split; [simpl; lia|].
        reflexivity.
Qed.

(** Every run of the body of [dark_light_collection] goes one of the seven
    ways. *)
Lemma run_dark_light_collection_body_any s n w g :
  collection_run id s (Z.to_nat n)
    (res (run h (dark_light_collection_body s n) w g))
    (log (run h (dark_light_collection_body s n) w g)).
Proof.
  unfold dark_light_collection_body, light, load_sample, count.
  destruct (h _ (Light false) w) as [[e|[]] w1] eqn:H1.
  { erewrite run_bind_raised by (by apply run_call_raised).
    apply (close_raised id). }
  erewrite run_bind_returned by (by apply run_call_ok).
  destruct (h _ (LoadSample s) w1) as [[e|[]] w2] eqn:H2.
  { erewrite run_bind_raised by (by apply run_call_raised).
    apply (load_raised id). }
  erewrite run_bind_returned by (by apply run_call_ok).
  destruct (h _ exposure w2) as [[e|dark] w3] eqn:H3.
  { erewrite run_bind_raised by (by apply run_call_raised).
    apply (dark_raised id). }
  erewrite run_bind_returned by (by apply run_call_ok).
  destruct (h _ (Light true) w3) as [[e|[]] w4] eqn:H4.
  { erewrite run_bind_raised by (by apply run_call_raised).
    apply (open_raised id). }
  erewrite run_bind_returned by (by apply run_call_ok).
  assert (length (range n) = Z.to_nat n) as Hn by apply length_seqZ.
  destruct (run_light_loop_any (range n) [dark] w4 g)
    as [(lights & w5 & Hlen & Hrun)|(lights & e & w5 & Hlen & Hrun)].
  2:{ erewrite run_bind_raised by exact Hrun.
      apply (light_raised id). lia. }
  erewrite run_bind_returned by exact Hrun.
  destruct (h _ (Light false) w5) as [[e|[]] w6] eqn:H6.
  { erewrite run_bind_raised by (by apply run_call_raised).
    apply (reclose_raised id). lia. }
  erewrite run_bind_returned by (by apply run_call_ok).
  apply (collected id). lia.
Qed.

(** So does every run of [dark_light_collection]. *)
Lemma run_dark_light_collection_any s n w g :
  collection_run leaving s (Z.to_nat n)
    (res (run h (dark_light_collection s n) w g))
    (log (run h (dark_light_collection s n) w g)).
Proof.
  unfold dark_light_collection. rewrite run_generator; cbn [res log].
  destruct (run_dark_light_collection_body_any s n w g); by constructor.
Qed.

(** X1: whatever the framework does, the requests of a run of
    [dark_light_collection(s, n)] are the first so many of: close the
    shutter, load sample [s], expose, open the shutter, expose [n] times,
    close the shutter; a run that returns made all of them, and returns
    the identifiers of its exposures in the order they were taken. *)
Theorem dark_light_collection_follows_script s n w g :
  asked <$> log (run h (dark_light_collection s n) w g)
    `prefix_of` collection_script s (Z.to_nat n) /\
  match res (run h (dark_light_collection s n) w g) with
  | Returned uids =>
      asked <$> log (run h (dark_light_collection s n) w g)
        = collection_script s (Z.to_nat n) /\
      omap exposure_uid (log (run h (dark_light_collection s n) w g)) = uids
  | Raised _ => True
  end.
Proof.
  unfold collection_script.
  destruct (run_dark_light_collection_any s n w g)
    as [dark lights Hlen|e|e|e|e dark|e dark lights Hlen|e dark lights Hlen].
  - rewrite !fmap_app, asked_exposures, Hlen.
    split; [done|]. split; [done|].
    rewrite !omap_app, exposure_uid_exposures. csimpl.
    by rewrite app_nil_r.
  - split; [|done]. by eexists.
  - split; [|done]. by eexists.
  - split; [|done]. by eexists.
  - split; [|done]. by eexists.
  - split; [|done].
    rewrite !fmap_app, asked_exposures. apply prefix_app.
    replace (Z.to_nat n)
      with (S (length lights) + (Z.to_nat n - S (length lights)))%nat by lia.
    rewrite replicate_add, replicate_S_end, <- !app_assoc.
    apply prefix_app. csimpl. by eexists.
  - split; [|done].
    rewrite !fmap_app, asked_exposures, Hlen. done.
Qed.

Lemma exposes_dark_light_collection s n w g :
  exposes (false :: replicate (Z.to_nat n) true)
    (run h (dark_light_collection s n) w g).
Proof.
  intros open.
  destruct (run_dark_light_collection_any s n w g)
    as [dark lights Hlen|e|e|e|e dark|e dark lights Hlen|e dark lights Hlen].
  - csimpl. rewrite exposure_shutters_lights, Hlen; simpl.
    by rewrite app_nil_r.
  - split; [|done]. apply prefix_nil.
  - split; [|done]. apply prefix_nil.
  - split; [|done]. simpl. apply prefix_cons, prefix_nil.
  - split; [|done]. simpl. apply prefix_cons, prefix_nil.
  - split; [|done]. csimpl. rewrite exposure_shutters_lights; simpl.
    apply prefix_cons.
    replace (Z.to_nat n)
      with (S (length lights) + (Z.to_nat n - S (length lights)))%nat by lia.
    rewrite replicate_add, replicate_S_end. by apply prefix_app_r.
  - split; [|done]. csimpl. rewrite exposure_shutters_lights, Hlen; simpl.
    by rewrite app_nil_r.
Qed.

(** X2: whatever the framework does and however the shutter stood before,
    the first exposure of a run of [dark_light_collection] is taken with
    the shutter closed and every later one with the shutter open: the
    exposures of the run are the first so many of one dark and [n] lights,
    and all of them when the run returns. *)
Theorem dark_light_collection_dark_first s n w g (open : bool) :
  exposure_shutters open (log (run h (dark_light_collection s n) w g))
    `prefix_of` false :: replicate (Z.to_nat n) true /\
  match res (run h (dark_light_collection s n) w g) with
  | Returned _ =>
      exposure_shutters open (log (run h (dark_light_collection s n) w g))
        = false :: replicate (Z.to_nat n) true
  | Raised _ => True
  end.
Proof. apply exposes_dark_light_collection. Qed.

(** X3: the closing of the shutter at the end of [dark_light_collection] is
    not protected: when the call that raises is an exposure other than the
    first, that is a light exposure, the run ends with the shutter open. *)
Theorem dark_light_collection_leaves_shutter_open s n w g (open : bool)
  (c : entry exn intensity) :
  last (log (run h (dark_light_collection s n) w g)) = Some c ->
  is_exposure c = true ->
  ~ succeeded c ->
  (2 <= length (List.filter is_exposure
                  (log (run h (dark_light_collection s n) w g))))%nat ->
  shutter_after open (log (run h (dark_light_collection s n) w g)) = true.
Proof.
  destruct (run_dark_light_collection_any s n w g)
    as [dark lights Hlen|e|e|e|e dark|e dark lights Hlen|e dark lights Hlen];
    intros Hlast Hexp Hfail Htwo.
  - rewrite !app_assoc, last_snoc in Hlast. by simplify_eq.
  - by simplify_eq/=.
  - by simplify_eq/=.
  - simpl in Htwo. lia.
  - by simplify_eq/=.
  - by rewrite !shutter_after_app, shutter_after_lights.
  - rewrite !app_assoc, last_snoc in Hlast. by simplify_eq.
Qed.

(** ** [custom_plan] and [mega_plan] under any framework *)

Lemma exposure_shutters_app (open : bool) (l1 l2 : list (entry exn intensity)) :
  exposure_shutters open (l1 ++ l2) =
  exposure_shutters open l1 ++ exposure_shutters (shutter_after open l1) l2.
Proof.
  revert open; induction l1 as [|c l1 IH]; intros open; simpl; [done|].
  by rewrite IH, <- app_assoc.
Qed.

Lemma exposes_ret {A : Type} (a : A) w g :
  exposes [] (run h (mret a) w g).
Proof. intros open. by split. Qed.

Lemma exposes_append (c : intensity) w g :
  exposes [] (run h (new_int_list_append c) w g).
Proof. intros open. by split. Qed.

Lemma exposes_call {X : Type} (m : Msg intensity X) w g :
  (forall r : exn + X, is_exposure (Entry m r) = false) ->
  exposes [] (run h (call m) w g).
Proof.
  intros Hm open. rewrite run_call; cbn [res log exposure_shutters].
  rewrite Hm. split; [done|]. by destruct (h X m w).1.
Qed.

Lemma exposes_bind {A B : Type} (p : plan exn intensity A)
  (f : A -> plan exn intensity B) (pat1 pat2 : list bool) w g :
  exposes pat1 (run h p w g) ->
  (forall a w' g', exposes pat2 (run h (f a) w' g')) ->
  exposes (pat1 ++ pat2) (run h (p ≫= f) w g).
Proof.
  intros Hp Hf open. rewrite run_bind.
  destruct (Hp open) as [Hpre Hall].
  destruct (res (run h p w g)) as [a|e]; cbn [res log prepend].
  - rewrite exposure_shutters_app, Hall.
    destruct (Hf a (world (run h p w g)) (new_int_list (run h p w g))
                (shutter_after open (log (run h p w g)))) as [Hpre2 Hall2].
    split; [by apply prefix_app|].
    destruct (res (run h (f a) _ _)); [by rewrite Hall2|done].
  - split; [by apply prefix_app_r|done].
Qed.

Lemma exposes_for_in {A S : Type} (xs : list A)
  (body : A -> S -> plan exn intensity S) (pat : list bool) :
  (forall x (a : S) w g, exposes pat (run h (body x a) w g)) ->
  forall (a : S) w g,
    exposes (concat (replicate (length xs) pat))
      (run h (for_in xs body a) w g).
Proof.
  intros Hbody. induction xs as [|x xs IH]; intros a w g.
  - apply (exposes_ret a).
  - rewrite for_in_cons. cbn [length replicate concat].
    apply exposes_bind; auto.
Qed.

Lemma exposes_generator {R : Type} (p : plan exn intensity R)
  (pat : list bool) w g :
  exposes pat (run h p w g) -> exposes pat (run h (generator p) w g).
Proof.
  intros Hp open. specialize (Hp open).
  rewrite run_generator; cbn [res log].
  by destruct (res (run h p w g)).
Qed.

Lemma exposes_custom_plan s t n w g :
  exposes (concat (replicate (Z.to_nat n) [false; true]))
    (run h (custom_plan s t n) w g).
Proof.
  apply exposes_generator.
  unfold custom_plan_body, print, process_data_call, sim_sleep.
  replace (Z.to_nat n) with (length (range n)) by apply length_seqZ.
  apply exposes_for_in; intros i [] w' g'.
  apply (exposes_bind _ _ [] [false; true]); [by apply exposes_call|intros].
  apply (exposes_bind _ _ [false; true] []);
    [apply (exposes_dark_light_collection s 1)|intros].
  apply (exposes_bind _ _ [] []); [by apply exposes_call|intros].
  apply (exposes_bind _ _ [] []); [apply exposes_append|intros].
  by apply exposes_call.
Qed.

(** X4: whatever the framework does and however the shutter stood before,
    the exposures of a run of [custom_plan(s, t, n)] alternate: closed,
    open, closed, open, ...; so every light exposure comes right after a
    dark exposure of its own.  The run takes the first so many of these
    [2 n] exposures, and all of them when it returns. *)
Theorem custom_plan_alternates s t n w g (open : bool) :
  exposure_shutters open (log (run h (custom_plan s t n) w g))
    `prefix_of` concat (replicate (Z.to_nat n) [false; true]) /\
  match res (run h (custom_plan s t n) w g) with
  | Returned _ =>
      exposure_shutters open (log (run h (custom_plan s t n) w g))
        = concat (replicate (Z.to_nat n) [false; true])
  | Raised _ => True
  end.
Proof. apply exposes_custom_plan. Qed.

(** X5: [custom_plan] never empties [new_int_list]: of two runs, one after
    the other, the second appends after what the first appended. *)
Theorem custom_plan_accumulates s t n s' t' n' w g :
  new_int_list
    (run h (custom_plan s' t' n')
       (world (run h (custom_plan s t n) w g))
       (new_int_list (run h (custom_plan s t n) w g)))
  = g ++ omap reduced (log (run h (custom_plan s t n) w g))
      ++ omap reduced
           (log (run h (custom_plan s' t' n')
                   (world (run h (custom_plan s t n) w g))
                   (new_int_list (run h (custom_plan s t n) w g)))).
Proof.
  rewrite (appended_custom_plan h s' t' n').
  rewrite (appended_custom_plan h s t n) at 1.
  by rewrite app_assoc.
Qed.

Lemma follows_ret {A : Type} (a : A) w g :
  follows [] (run h (mret a) w g).
Proof. by split. Qed.

Lemma follows_call {X : Type} (m : Msg intensity X) w g :
  follows [Request m] (run h (call m) w g).
Proof.
  rewrite run_call. split; [done|]. by destruct (h X m w).1.
Qed.

Lemma follows_bind {A B : Type} (p : plan exn intensity A)
  (f : A -> plan exn intensity B) (s1 s2 : list (request intensity)) w g :
  follows s1 (run h p w g) ->
  (forall a w' g', follows s2 (run h (f a) w' g')) ->
  follows (s1 ++ s2) (run h (p ≫= f) w g).
Proof.
  intros [Hpre Hall] Hf. rewrite run_bind. unfold follows.
  destruct (res (run h p w g)) as [a|e]; cbn [res log prepend].
  - rewrite fmap_app, Hall.
    destruct (Hf a (world (run h p w g)) (new_int_list (run h p w g)))
      as [Hpre2 Hall2].
    split; [by apply prefix_app|].
    destruct (res (run h (f a) _ _)); [by rewrite Hall2|done].
  - split; [by apply prefix_app_r|done].
Qed.

(** The dictionary [{**base_md, 'role': role, 'sample': sample}] has the
    three entries and no other. *)
Lemma mega_plan_md (operator role sample : string) :
  <["sample" := sample]> (<["role" := role]> {[ "operator" := operator ]})
  = ({[ "operator" := operator; "role" := role; "sample" := sample ]}
       : metadata).
Proof.
  apply map_eq; intros k.
  destruct (decide (k = "sample")) as [->|]; [by simplify_map_eq|].
  destruct (decide (k = "role")) as [->|]; [by simplify_map_eq|].
  destruct (decide (k = "operator")) as [->|]; by simplify_map_eq.
Qed.

Lemma follows_generator {R : Type} (p : plan exn intensity R)
  (script : list (request intensity)) w g :
  follows script (run h p w g) -> follows script (run h (generator p) w g).
Proof.
  unfold follows. rewrite run_generator; cbn [res log].
  by destruct (res (run h p w g)).
Qed.

Lemma follows_mega_plan (operator : string) w g :
  follows (mega_plan_script operator) (run h (mega_plan operator) w g).
Proof.
  apply follows_generator.
  unfold mega_plan_body, count, scan. rewrite !for_in_cons, !mega_plan_md.
  change (mega_plan_script operator) with
    (([Request (Count [det]
         {[ "operator" := operator; "role" := "calibration";
            "sample" := "A" ]})]
      ++ [Request (Scan [det] motor (-1) 3 10
         {[ "operator" := operator; "role" := "ascan"; "sample" := "A" ]})]
      ++ [])
     ++ ([Request (Count [det]
         {[ "operator" := operator; "role" := "calibration";
            "sample" := "B" ]})]
      ++ [Request (Scan [det] motor (-1) 3 10
         {[ "operator" := operator; "role" := "ascan"; "sample" := "B" ]})]
      ++ [])
     ++ ([Request (Count [det]
         {[ "operator" := operator; "role" := "calibration";
            "sample" := "C" ]})]
      ++ [Request (Scan [det] motor (-1) 3 10
         {[ "operator" := operator; "role" := "ascan"; "sample" := "C" ]})]
      ++ [])
     ++ (@nil (request intensity))).
  repeat first
    [ apply follows_call
    | apply follows_ret
    | apply follows_bind; [|intros] ].
Qed.

(** X6: whatever the framework does, the requests of a run of
    [mega_plan(operator)] are the first so many of six: for the samples A,
    B, C in this order, a count and then a scan, each with a metadata
    dictionary of exactly the three entries operator, role and sample.  A
    run that returns made all six and none raised; a run that ends with an
    exception made its last request raise, none before it raised, and the
    remaining runs were not asked for. *)
Theorem mega_plan_follows_script (operator : string) w g :
  asked <$> log (run h (mega_plan operator) w g)
    `prefix_of` mega_plan_script operator /\
  match res (run h (mega_plan operator) w g) with
  | Returned _ =>
      asked <$> log (run h (mega_plan operator) w g)
        = mega_plan_script operator /\
      Forall succeeded (log (run h (mega_plan operator) w g))
  | Raised _ =>
      exists (pre : list (entry exn intensity)) (c : entry exn intensity),
        log (run h (mega_plan operator) w g) = pre ++ [c] /\
        Forall succeeded pre /\ ~ succeeded c
  end.
Proof.
  destruct (follows_mega_plan operator w g) as [Hpre Hall].
  pose proof (passes_on_mega_plan h operator w g) as Hpass.
  unfold passes_on in Hpass. split; [done|].
  destruct (res (run h (mega_plan operator) w g)) as [a|e']; [done|].
  destruct Hpass as (pre & X & m & e & Hlog & Hok & _).
  exists pre, (Entry m (inl e)). auto.
Qed.

End AnyFramework.

(** ** [custom_plan] and [mega_plan] when no call raises *)

Section TotalFramework.

Context {exn intensity W : Type}.
Context `{!Exceptions exn}.
Context (th : forall X : Type, Msg intensity X -> W -> X * W).

Implicit Types (w : W) (g : list intensity) (s t n : Z).

Lemma run_custom_plan_log s t (xs : list Z) w g :
  exists (turns : list (uid * uid * intensity)) (w' : W),
    length turns = length xs /\
    run (exn:=exn) (total th)
      (for_in xs
         (fun i _ =>
            print ("on loop " +:+ str i) ;;
            this_pair ← dark_light_collection s num_lights_default ;
            c ← process_data_call this_pair ;
            new_int_list_append c ;;
            sim_sleep t) tt) w g =
    Outcome (Returned tt) w' (g ++ (snd <$> turns))
      (concat (zip_with (turn_log s t) xs turns)).
Proof.
  revert w g; induction xs as [|i xs IH]; intros w g.
  - exists [], w. split; [done|]. simpl. by rewrite app_nil_r.
  - destruct (run_custom_plan_turn (exn:=exn) th s t i w g)
      as (dark & light & c & w1 & Hturn).
    destruct (IH w1 (g ++ [c])) as (turns & w2 & Hlen & Hrun).
    exists ((dark, light, c) :: turns), w2. split; [simpl; lia|].
    rewrite for_in_cons.
    erewrite run_bind_returned by exact Hturn.
    rewrite Hrun. unfold prepend; csimpl.
    by rewrite <- app_assoc.
Qed.

Lemma sleeps_of_turns s t (xs : list Z) (turns : list (uid * uid * intensity)) :
  length turns = length xs ->
  omap sleep_of (concat (zip_with (turn_log (exn:=exn) s t) xs turns))
  = replicate (length xs) t.
Proof.
  revert turns; induction xs as [|i xs IH]; intros [|[[dark light] c] turns];
    try done.
  intros [= Hlen]. cbn [zip_with concat length replicate].
  rewrite omap_app, IH by done. done.
Qed.

Lemma last_of_turns s t (xs : list Z) (turns : list (uid * uid * intensity)) :
  length turns = length xs -> xs <> [] ->
  last (concat (zip_with (turn_log (exn:=exn) s t) xs turns))
  = Some (ok (SimSleep t) tt).
Proof.
  revert turns; induction xs as [|i xs IH]; intros [|[[dark light] c] turns];
    try done.
  intros [= Hlen] _. cbn [zip_with concat]. rewrite last_app.
  destruct xs as [|j xs].
  - by destruct turns.
  - by rewrite IH.
Qed.

(** X7: when no call raises, the record of a run of
    [custom_plan(s, t, n)] is that of its turns 0, 1, ..., n-1, one after
    the other, each turn being: print "on loop i"; close the shutter, load
    sample [s], expose, open the shutter, expose, close the shutter; call
    [process_data] on the two identifiers these exposures came back with;
    sleep [t].  [new_int_list] grows by the arrays of the turns, in
    order. *)
Theorem custom_plan_turn_by_turn s t n w g :
  exists turns : list (uid * uid * intensity),
    length turns = Z.to_nat n /\
    res (run (exn:=exn) (total th) (custom_plan s t n) w g) = Returned tt /\
    log (run (exn:=exn) (total th) (custom_plan s t n) w g)
      = concat (zip_with (turn_log s t) (range n) turns) /\
    new_int_list (run (exn:=exn) (total th) (custom_plan s t n) w g)
      = g ++ (snd <$> turns).
Proof.
  destruct (run_custom_plan_log s t (range n) w g)
    as (turns & w' & Hlen & Hrun).
  unfold custom_plan.
  rewrite (run_generator_returned _ _ _ _ _ _ _ _ Hrun).
  exists turns. unfold range in Hlen. rewrite length_seqZ in Hlen. done.
Qed.

(** X8: when no call raises, a run of [custom_plan(s, t, n)] with [n >= 1]
    sleeps [n] times, [t] each time, and its last request is a sleep: the
    plan also sleeps after its last turn. *)
Theorem custom_plan_sleeps s t n w g :
  1 <= n ->
  omap sleep_of (log (run (exn:=exn) (total th) (custom_plan s t n) w g))
    = replicate (Z.to_nat n) t /\
  last (log (run (exn:=exn) (total th) (custom_plan s t n) w g))
    = Some (ok (SimSleep t) tt).
Proof.
  intros Hn.
  destruct (run_custom_plan_log s t (range n) w g)
    as (turns & w' & Hlen & Hrun).
  unfold custom_plan.
  rewrite (run_generator_returned _ _ _ _ _ _ _ _ Hrun).
  cbn [log]. split.
  - rewrite sleeps_of_turns by done. unfold range. by rewrite length_seqZ.
  - apply last_of_turns; [done|].
    unfold range. rewrite seqZ_cons by lia. done.
Qed.

(** The metadata of a three-entry dictionary that a query selects. *)
Lemma selects_operator (o' o r x : string) :
  selects {[ "operator" := o' ]}
    {[ "operator" := o; "role" := r; "sample" := x ]} <-> o' = o.
Proof.
  unfold selects. rewrite map_singleton_subseteq_l.
  split; [intros; by simplify_map_eq|intros ->; by simplify_map_eq].
Qed.

Lemma selects_operator_role (o' r' o r x : string) :
  selects {[ "operator" := o'; "role" := r' ]}
    {[ "operator" := o; "role" := r; "sample" := x ]} <-> o' = o /\ r' = r.
Proof.
  unfold selects. rewrite map_subseteq_spec. split.
  - intros H.
    pose proof (H "operator" o' ltac:(by simplify_map_eq)).
    pose proof (H "role" r' ltac:(by simplify_map_eq)).
    by simplify_map_eq.
  - intros [-> ->] k v Hk.
    destruct (decide (k = "operator")) as [->|]; [by simplify_map_eq|].
    destruct (decide (k = "role")) as [->|]; by simplify_map_eq.
Qed.

Lemma selects_operator_role_sample (o' r' x' o r x : string) :
  selects {[ "operator" := o'; "role" := r'; "sample" := x' ]}
    {[ "operator" := o; "role" := r; "sample" := x ]}
  <-> o' = o /\ r' = r /\ x' = x.
Proof.
  unfold selects. rewrite map_subseteq_spec. split.
  - intros H.
    pose proof (H "operator" o' ltac:(by simplify_map_eq)).
    pose proof (H "role" r' ltac:(by simplify_map_eq)).
    pose proof (H "sample" x' ltac:(by simplify_map_eq)).
    by simplify_map_eq.
  - by intros (-> & -> & ->) k v Hk.
Qed.

Lemma mega_plan_mds (operator : string) w g :
  omap run_md (log (run (exn:=exn) (total th) (mega_plan operator) w g))
  = [ {[ "operator" := operator; "role" := "calibration"; "sample" := "A" ]};
      {[ "operator" := operator; "role" := "ascan"; "sample" := "A" ]};
      {[ "operator" := operator; "role" := "calibration"; "sample" := "B" ]};
      {[ "operator" := operator; "role" := "ascan"; "sample" := "B" ]};
      {[ "operator" := operator; "role" := "calibration"; "sample" := "C" ]};
      {[ "operator" := operator; "role" := "ascan"; "sample" := "C" ]} ].
Proof.
  destruct (run_mega_plan (exn:=exn) th operator w g)
    as (u1 & u2 & u3 & u4 & u5 & u6 & w' & ->).
  cbn [log omap list_omap run_md ok]. by rewrite !mega_plan_md.
Qed.

(** Decides which dictionaries of a list a query selects. *)
Ltac select_runs :=
  repeat first
    [ rewrite filter_nil
    | rewrite filter_cons_True
        by (first [ apply selects_operator
                  | apply selects_operator_role
                  | apply selects_operator_role_sample ]; done)
    | rewrite filter_cons_False
        by (first [ rewrite selects_operator
                  | rewrite selects_operator_role
                  | rewrite selects_operator_role_sample ];
            intros ?; destruct_and?; congruence) ].

(** X9: when no call raises, the six runs of [mega_plan(operator)] are told
    apart by their metadata as the keyword searches of the notebook
    expect: the query for the operator selects all six, the query for the
    operator and role calibration three, and the query for the operator,
    role calibration and sample A one. *)
Theorem mega_plan_searches (operator : string) w g :
  let mds :=
    omap run_md (log (run (exn:=exn) (total th) (mega_plan operator) w g)) in
  length mds = 6%nat /\
  filter (selects {[ "operator" := operator ]}) mds = mds /\
  length (filter (selects {[ "operator" := operator;
                             "role" := "calibration" ]}) mds) = 3%nat /\
  filter (selects {[ "operator" := operator; "role" := "calibration";
                     "sample" := "A" ]}) mds
  = [ {[ "operator" := operator; "role" := "calibration";
         "sample" := "A" ]} ].
Proof.
  intros mds. subst mds. rewrite mega_plan_mds.
  split; [done|]. split; [|split]; by select_runs.
Qed.

(** X10: the runs of [mega_plan] for one operator are not selected by the
    query for another operator. *)
Theorem mega_plan_other_operator (operator other : string) w g :
  other <> operator ->
  filter (selects {[ "operator" := other ]})
    (omap run_md (log (run (exn:=exn) (total th) (mega_plan operator) w g)))
  = [].
Proof.
  intros Hne. rewrite mega_plan_mds. by select_runs.
Qed.

End TotalFramework.

(** ** The error bar *)

Section ErrorbarProperties.

Context {number : Type}.
Context (minus : number -> number -> number).

Implicit Types (ci : gmap string (list (number * number))).

Lemma subscript_second_last {A : Type} (l : list A) :
  subscript l (-2) =
  if decide (length l < 2)%nat then inl IndexError
  else match reverse l !! 1%nat with
       | Some a => inr a
       | None => inl IndexError
       end.
Proof.
  unfold subscript. rewrite (decide_True (P := -2 < 0)) by lia.
  destruct (decide (length l < 2)%nat) as [Hshort|Hlong].
  - by rewrite (decide_True (P := Z.of_nat (length l) + -2 < 0)) by lia.
  - rewrite (decide_False (P := Z.of_nat (length l) + -2 < 0)) by lia.
    rewrite reverse_lookup by lia.
    by replace (Z.to_nat (Z.of_nat (length l) + -2)) with (length l - 2)%nat
      by lia.
Qed.

Lemma subscript_second {A : Type} (l : list A) :
  subscript l 1 =
  match l !! 1%nat with Some a => inr a | None => inl IndexError end.
Proof. unfold subscript. by rewrite !(decide_False (P := 1 < 0)) by lia. Qed.

(** X11: [errorbar] raises [KeyError] for a parameter the confidence
    intervals do not name and [IndexError] for one with fewer than two
    intervals; in every other case it returns a number. *)
Theorem errorbar_raises ci (param_name : string) :
  match ci !! param_name with
  | None => errorbar minus ci param_name = inl (KeyError param_name)
  | Some intervals =>
      if decide (length intervals < 2)%nat
      then errorbar minus ci param_name = inl IndexError
      else exists x : number, errorbar minus ci param_name = inr x
  end.
Proof.
  unfold errorbar. destruct (ci !! param_name) as [l|]; [|done].
  rewrite subscript_second_last, subscript_second.
  destruct (decide (length l < 2)%nat) as [Hshort|Hlong]; [done|].
  destruct (lookup_lt_is_Some_2 (reverse l) 1) as [upper ->];
    [rewrite length_reverse; lia|].
  destruct (lookup_lt_is_Some_2 l 1) as [lower ->]; [lia|].
  by eexists.
Qed.

(** X12: for a parameter with at least two intervals, [errorbar] is the
    value of the second interval from the end minus the value of the second
    interval from the start. *)
Theorem errorbar_width ci (param_name : string)
  (intervals : list (number * number)) :
  ci !! param_name = Some intervals ->
  (2 <= length intervals)%nat ->
  exists upper lower : number * number,
    reverse intervals !! 1%nat = Some upper /\
    intervals !! 1%nat = Some lower /\
    errorbar minus ci param_name = inr (minus upper.2 lower.2).
Proof.
  intros Hci Hlen. unfold errorbar. rewrite Hci.
  rewrite subscript_second_last, subscript_second.
  rewrite decide_False by lia.
  destruct (lookup_lt_is_Some_2 (reverse intervals) 1) as [upper Hupper];
    [rewrite length_reverse; lia|].
  destruct (lookup_lt_is_Some_2 intervals 1) as [lower Hlower]; [lia|].
  exists upper, lower. by rewrite Hupper, Hlower.
Qed.

(** X13: for a parameter with exactly three intervals both subscripts of
    [errorbar] read the middle one: the result is the value of that interval
    minus itself, whatever the outer intervals are. *)
Theorem errorbar_three_intervals ci (param_name : string)
  (low mid high : number * number) :
  ci !! param_name = Some [low; mid; high] ->
  errorbar minus ci param_name = inr (minus mid.2 mid.2).
Proof. intros Hci. unfold errorbar. by rewrite Hci. Qed.

End ErrorbarProperties.

(** ** The plans on the bench *)

Example dark_light_collection_on_bench :
  let o := run (exn:=string) (total bench) (dark_light_collection 1 2)
             bench0 [] in
  res o = Returned ["run0"; "run1"; "run2"] /\
  catalog (world o) = {[ "run0" := 0; "run1" := 1; "run2" := 1 ]} /\
  shutter_open (world o) = false /\
  new_int_list o = [].
Proof. vm_compute. repeat split. Qed.

Example custom_plan_on_bench :
  let o := run (exn:=string) (total bench) (custom_plan 1 60 2) bench0 [] in
  res o = Returned tt /\
  new_int_list o = [[1]; [1]] /\
  printed (world o) = ["on loop 0"; "on loop 1"] /\
  clock (world o) = 120.
Proof. vm_compute. repeat split. Qed.

(** With a detector that raises, the first turn of [custom_plan] ends at the
    dark exposure: nothing is reduced and nothing appended. *)
Example custom_plan_broken_detector :
  let o := run broken_detector (custom_plan 1 60 2) bench0 [] in
  res o = Raised "detector timeout" /\
  log o = [ok (Print "on loop 0") tt; ok (Light false) tt;
           ok (LoadSample 1) tt; Entry exposure (inl "detector timeout")] /\
  new_int_list o = [].
Proof. vm_compute. repeat split. Qed.

(** A plan that caught the exception would not pass for one that lets it
    through. *)
Example guarded_exposure_does_not_propagate :
  ~ propagates (run broken_detector guarded_exposure bench0 []) /\
  ~ passes_on (run broken_detector guarded_exposure bench0 []).
Proof. split; unfold propagates, passes_on; vm_compute; by inversion 1. Qed.

(** A [StopIteration] does leave [dark_light_collection] and [mega_plan]
    as a [RuntimeError] too. *)
Example stop_iteration_in_a_plan :
  res (run (intensity:=list Z) (W:=beamline)
         (fun X m b => (inl "StopIteration", b))
         (dark_light_collection 1 1) bench0 [])
    = Raised "RuntimeError: generator raised StopIteration" /\
  res (run (intensity:=list Z) (W:=beamline)
         (fun X m b => (inl "StopIteration", b))
         (mega_plan "dallan") bench0 [])
    = Raised "RuntimeError: generator raised StopIteration".
Proof. by vm_compute. Qed.


(** C4, as stated, fails: on the bench, with [new_int_list] empty before the
    call, one turn of [custom_plan] leaves it holding an array. *)
Lemma custom_plan_writes_new_int_list :
  new_int_list
    (run (exn:=string) (total bench) (custom_plan 1 0 1) bench0 []) <> [].
Proof. vm_compute. discriminate. Qed.

Lemma dark_light_collection_returns_dark_then_lights_witness :
  1 <= 2 /\
  exists (dark : uid) (lights : list uid),
    res (run (exn:=string) (total bench) (dark_light_collection 1 2) bench0 [])
      = Returned (dark :: lights) /\
    Z.of_nat (length lights) = 2 /\
    log (run (exn:=string) (total bench) (dark_light_collection 1 2) bench0 [])
      = [ok (Light false) tt; ok (LoadSample 1) tt; ok exposure dark;
         ok (Light true) tt]
          ++ (ok exposure <$> lights) ++ [ok (Light false) tt] /\
    omap exposure_uid
      (log (run (exn:=string) (total bench) (dark_light_collection 1 2)
              bench0 []))
      = dark :: lights.
Proof.
  split; [lia|].
  apply (dark_light_collection_returns_dark_then_lights bench 1 2 bench0 []).
  lia.
Defined.

Lemma dark_light_collection_counts_witness :
  0 <= 3 /\
  ((exists uids : list uid,
      res (run (exn:=string) (total bench) (dark_light_collection 7 3)
             bench0 [])
        = Returned uids /\
      Z.of_nat (length uids) = 3 + 1 /\
      Z.of_nat (length (List.filter is_exposure
        (log (run (exn:=string) (total bench) (dark_light_collection 7 3)
                bench0 []))))
        = 3 + 1) /\
   (exists dark light : uid,
      res (run (exn:=string) (total bench)
             (dark_light_collection 7 num_lights_default) bench0 [])
        = Returned [dark; light]) /\
   (exists dark : uid,
      res (run (exn:=string) (total bench) (dark_light_collection 7 0)
             bench0 [])
        = Returned [dark] /\
      List.filter is_exposure
        (log (run (exn:=string) (total bench) (dark_light_collection 7 0)
                bench0 []))
        = [ok exposure dark])).
Proof.
  split; [lia|].
  apply (dark_light_collection_counts bench 7 3 bench0 []). lia.
Defined.

Lemma process_data_reduces_witness :
  process_data Z.sub id ({[ "run0" := 5; "run1" := 12; "run2" := 9 ]})
    ["run0"; "run1"; "run2"] false false
  = Some [12 - 5; 9 - 5] /\
  process_data Z.sub id ({[ "run0" := 5; "run1" := 12; "run2" := 9 ]})
    ["run0"; "run1"; "run2"] false true
  = Some [5] /\
  process_data Z.sub id ({[ "run0" := 5; "run1" := 12; "run2" := 9 ]})
    ["run0"; "run1"; "run2"] true false
  = Some [12; 9].
Proof.
  apply (process_data_reduces Z.sub id
           ({[ "run0" := 5; "run1" := 12; "run2" := 9 ]})
           "run0" ["run1"; "run2"] 5 [12; 9]).
  - reflexivity.
  - repeat constructor.
Defined.

(** ** [gaussian] on concrete numbers *)

(** What [exp_series] makes of the three exponents met below. *)
Example exp_series_values :
  exp_series nan = nan /\ exp_series (-0) = 1%float /\
  (0.5 <? exp_series (-0.5))%float = true /\
  (exp_series (-0.5) <? 0.625)%float = true.
Proof. repeat split; reflexivity. Qed.

Example gaussian_on_exp_series :
  gaussian exp_series 0 1 0x1p-700 0 = nan /\
  gaussian exp_series (0x1p53 + 1) 1 1 0x1p53 = 1%float /\
  (gaussian exp_series (0x1p53 - 1) 1 1 0x1p53 <? 0.625)%float = true.
Proof. repeat split; reflexivity. Qed.



(** ** The further properties on concrete inputs *)

Lemma dark_light_collection_leaves_shutter_open_witness :
  last (log (run saturating (dark_light_collection 1 2) bench0 []))
    = Some (Entry exposure (inl "detector saturated")) /\
  shutter_after true
    (log (run saturating (dark_light_collection 1 2) bench0 []))
    = true.
Proof.
  split; [by vm_compute|].
  apply (dark_light_collection_leaves_shutter_open saturating 1 2 bench0 []
           true (Entry exposure (inl "detector saturated"))).
  - by vm_compute.
  - reflexivity.
  - simpl. tauto.
  - vm_compute. lia.
Defined.

Lemma custom_plan_sleeps_witness :
  1 <= 2 /\
  omap sleep_of
    (log (run (exn:=string) (total bench) (custom_plan 1 60 2) bench0 []))
    = replicate (Z.to_nat 2) 60 /\
  last (log (run (exn:=string) (total bench) (custom_plan 1 60 2) bench0 []))
    = Some (ok (SimSleep 60) tt).
Proof.
  split; [lia|].
  apply (custom_plan_sleeps bench 1 60 2 bench0 []). lia.
Defined.

Lemma mega_plan_other_operator_witness :
  "tcaswell" <> "dallan" /\
  filter (selects {[ "operator" := "tcaswell" ]})
    (omap run_md
       (log (run (exn:=string) (total bench) (mega_plan "dallan") bench0 [])))
  = [].
Proof.
  split; [discriminate|].
  apply (mega_plan_other_operator bench "dallan" "tcaswell" bench0 []).
  discriminate.
Defined.

Lemma errorbar_width_witness :
  exists upper lower : Z * Z,
    reverse [(3, 10); (2, 20); (1, 30); (0, 40); (1, 50); (2, 60); (3, 70)]
      !! 1%nat = Some upper /\
    [(3, 10); (2, 20); (1, 30); (0, 40); (1, 50); (2, 60); (3, 70)]
      !! 1%nat = Some lower /\
    errorbar Z.sub
      {[ "sigma" :=
           [(3, 10); (2, 20); (1, 30); (0, 40); (1, 50); (2, 60); (3, 70)] ]}
      "sigma"
    = inr (upper.2 - lower.2).
Proof.
  apply (errorbar_width Z.sub
           {[ "sigma" :=
                [(3, 10); (2, 20); (1, 30); (0, 40); (1, 50); (2, 60);
                 (3, 70)] ]}
           "sigma").
  - reflexivity.
  - simpl. lia.
Defined.

Lemma errorbar_three_intervals_witness :
  errorbar Z.sub {[ "sigma" := [(1, 10); (0, 30); (1, 50)] ]} "sigma"
  = inr (30 - 30).
Proof.
  apply (errorbar_three_intervals Z.sub
           {[ "sigma" := [(1, 10); (0, 30); (1, 50)] ]} "sigma"
           (1, 10) (0, 30) (1, 50)).
  reflexivity.
Defined.
